(** * Career-guidance query translator: entity extractor, template
      synthesizer and response sanitizer of [ai_service.py]

    The development embeds the three pure methods of [AIService] that
    make up the rule-based translation layer,

      - [extract_entities]        (utterance -> intent record),
      - [intelligent_fallback]    (utterance, intent record -> Cypher text),
      - [_clean_cypher_response] / [_fix_cypher_scoping] (text -> text),

    together with the part of Python's [str], [re] and [float] they call,
    the orchestrator [generate_cypher_query] / [_call_groq] around them
    (the chat-completion client is a parameter), and the query methods of
    [RecommendationEngine] in [recommender.py] (the graph driver is a
    parameter).

    Strings are lists of 8-bit characters read as the code points
    U+0000..U+00FF; [str.lower], [str.strip] and the classes [\s], [\d]
    are the Python ones restricted to that range. *)

From Stdlib Require Import Ascii String.
From Stdlib Require Import List Bool Arith Lia.
Import ListNotations.

Local Open Scope list_scope.
Local Open Scope bool_scope.

(** ** Python [str] *)

Module PyStr.

Definition str := list ascii.

(** String literals of the source are written [lit "..."]. *)
Definition lit (s : string) : str := list_ascii_of_string s.

Definition code (c : ascii) : nat := nat_of_ascii c.

Definition in_range (lo hi : nat) (c : ascii) : bool :=
  (lo <=? code c) && (code c <=? hi).

(** [str.isspace] on one character: TAB..CR, FS..US, space, NEL, NBSP. *)
Definition is_space (c : ascii) : bool :=
  in_range 9 13 c || in_range 28 32 c
  || (code c =? 133) || (code c =? 160).

(** [str.lower] on one character: A-Z, and the Latin-1 capitals
    U+00C0..U+00DE except the multiplication sign U+00D7. *)
Definition lower_char (c : ascii) : ascii :=
  if in_range 65 90 c
     || (in_range 192 222 c && negb (code c =? 215))
  then ascii_of_nat (code c + 32)
  else c.

Definition lower (s : str) : str := map lower_char s.

Fixpoint drop_while (p : ascii -> bool) (s : str) : str :=
  match s with
  | [] => []
  | c :: s' => if p c then drop_while p s' else s
  end.

(** [s.lstrip()], [s.rstrip()], [s.strip()] *)
Definition lstrip (s : str) : str := drop_while is_space s.
Definition rstrip (s : str) : str := rev (drop_while is_space (rev s)).
Definition strip (s : str) : str := rstrip (lstrip s).

(** [s.rstrip(chars)] *)
Definition mem (c : ascii) (chars : str) : bool :=
  existsb (Ascii.eqb c) chars.
Definition rstrip_chars (chars s : str) : str :=
  rev (drop_while (fun c => mem c chars) (rev s)).

(** [s.startswith(p)] *)
Fixpoint startswith (p s : str) : bool :=
  match p, s with
  | [], _ => true
  | _ :: _, [] => false
  | a :: p', b :: s' => Ascii.eqb a b && startswith p' s'
  end.

(** [s.endswith(suffix)] *)
Definition endswith (suffix s : str) : bool :=
  startswith (rev suffix) (rev s).

(** [sub in s] *)
Fixpoint contains (sub s : str) : bool :=
  startswith sub s
  || match s with
     | [] => false
     | _ :: s' => contains sub s'
     end.

(** [s.replace(old, new)] for a non-empty [old]: occurrences are taken
    leftmost first and do not overlap.  [skip] counts the characters of
    the occurrence just replaced that are still to be passed over. *)
Fixpoint replace_go (old new : str) (skip : nat) (s : str) : str :=
  match s with
  | [] => []
  | c :: s' =>
      match skip with
      | S k => replace_go old new k s'
      | O =>
          if startswith old s
          then new ++ replace_go old new (length old - 1) s'
          else c :: replace_go old new 0 s'
      end
  end.

Definition replace (old new s : str) : str := replace_go old new 0 s.

Definition newline : ascii := ascii_of_nat 10.

(** [s.split(sep)] for a one-character separator: never the empty list. *)
Fixpoint split (sep : ascii) (s : str) : list str :=
  match s with
  | [] => [[]]
  | c :: s' =>
      if Ascii.eqb c sep then [] :: split sep s'
      else match split sep s' with
           | l :: ls => (c :: l) :: ls
           | [] => [[c]]
           end
  end.

(** [sep.join(ls)] *)
Fixpoint join (sep : str) (ls : list str) : str :=
  match ls with
  | [] => []
  | l :: ls' =>
      match ls' with
      | [] => l
      | _ :: _ => l ++ sep ++ join sep ls'
      end
  end.

Definition str_eqb (a b : str) : bool :=
  if list_eq_dec ascii_dec a b then true else false.

(** Truthiness of a string or of a list: non-empty. *)
Definition nonempty {A : Type} (s : list A) : bool :=
  match s with [] => false | _ :: _ => true end.

End PyStr.

Import PyStr.

(** ** Python [re]: a backtracking matcher

    Enough of [re] for the eight patterns of [extract_entities]:
    literals, classes, concatenation, ordered alternation, greedy
    repetition and the capturing group number 1.  The matcher is written
    in continuation-passing style; [None] is failure and makes the caller
    try its next alternative, which is the backtracking of [re]. *)

Module Re.

Inductive regex : Type :=
| Eps : regex
| Cls : (ascii -> bool) -> regex
| Cat : regex -> regex -> regex
| Alt : regex -> regex -> regex
| Star : regex -> regex
| Grp : regex -> regex.

Definition Chr (c : ascii) : regex := Cls (Ascii.eqb c).
Definition Plus (r : regex) : regex := Cat r (Star r).
Definition Opt (r : regex) : regex := Alt r Eps.
Fixpoint Str (s : str) : regex :=
  match s with
  | [] => Eps
  | c :: s' => Cat (Chr c) (Str s')
  end.

Section Exec.
Context {R : Type}.

(** [exec r s g k]: match [r] at the head of [s]; [g] is the text of
    group 1 so far; on success continue with [k rest g']. *)
Fixpoint exec (r : regex) (s : str) (g : option str)
         (k : str -> option str -> option R) {struct r} : option R :=
  match r with
  | Eps => k s g
  | Cls p =>
      match s with
      | c :: s' => if p c then k s' g else None
      | [] => None
      end
  | Cat r1 r2 => exec r1 s g (fun s1 g1 => exec r2 s1 g1 k)
  | Alt r1 r2 =>
      match exec r1 s g k with
      | Some x => Some x
      | None => exec r2 s g k
      end
  | Star r1 =>
      (fix loop (fuel : nat) (s : str) (g : option str) {struct fuel}
         : option R :=
         match fuel with
         | O => k s g
         | S fuel' =>
             match
               exec r1 s g
                    (fun s1 g1 =>
                       if length s1 <? length s
                       then loop fuel' s1 g1 else None)
             with
             | Some x => Some x
             | None => k s g
             end
         end) (length s) s g
  | Grp r1 =>
      exec r1 s g
           (fun s1 _ => k s1 (Some (firstn (length s - length s1) s)))
  end.
End Exec.

(** The match object: only [group(1)] is ever read. *)
Record re_match : Type := { group1 : option str }.

Definition match_at (r : regex) (s : str) : option re_match :=
  exec r s None (fun _ g => Some {| group1 := g |}).

(** [re.search(r, s)]: the leftmost position where [r] matches. *)
Fixpoint search (r : regex) (s : str) : option re_match :=
  match match_at r s with
  | Some m => Some m
  | None =>
      match s with
      | [] => None
      | _ :: s' => search r s'
      end
  end.

(** The classes used by the source's patterns. *)
Definition upper_AZ : regex := Cls (in_range 65 90).
Definition lower_az : regex := Cls (in_range 97 122).
Definition space : regex := Cls is_space.
Definition digit : regex := Cls (in_range 48 57).

End Re.

(** ** Python [float], as far as the threshold needs it

    [float(text)] is only applied to text matched by [\d+(\.\d+)?].  The
    model keeps the decimal value exactly, in normal form: integer digits
    without leading zeros and fraction digits without trailing zeros, at
    least one digit each.  This agrees with binary64 on truthiness and on
    [repr] (what an f-string prints) for every literal of at most 15
    significant digits whose value is zero or lies in [1e-4, 1e16), which
    is where proficiency and GPA cut-offs live. *)

Module PyFloat.

Record float : Type := { int_digits : str; frac_digits : str }.

Definition is_zero_digit (c : ascii) : bool := Ascii.eqb c "0"%char.

Definition or_zero (s : str) : str :=
  match s with [] => lit "0" | _ :: _ => s end.

Fixpoint span_digits (s : str) : str * str :=
  match s with
  | [] => ([], [])
  | c :: s' =>
      if in_range 48 57 c
      then let (d, rest) := span_digits s' in (c :: d, rest)
      else ([], s)
  end.

(** [float(text)] *)
Definition of_str (text : str) : float :=
  let (i, rest) := span_digits text in
  let f := match rest with
           | [] => []
           | _dot :: f => f
           end in
  {| int_digits := or_zero (drop_while is_zero_digit i);
     frac_digits := or_zero (rev (drop_while is_zero_digit (rev f))) |}.

(** [bool(x)]: a float is falsy exactly when it is zero. *)
Definition truthy (x : float) : bool :=
  negb (str_eqb (int_digits x) (lit "0")
        && str_eqb (frac_digits x) (lit "0")).

(** [repr(x)], the text an f-string inserts for [{x}]. *)
Definition repr (x : float) : str :=
  int_digits x ++ lit "." ++ frac_digits x.

End PyFloat.

(** ** The intent record and [extract_entities] *)

Module Extractor.
Import Re.

(** The dictionary [entities]: always the same seven keys, each [None]
    until a rule assigns it. *)
Record entities : Type := {
  student_name : option str;
  company : option str;
  role_keywords : option str;
  skill : option str;
  course : option str;
  threshold : option PyFloat.float;
  query_type : option str
}.

Definition init_entities : entities :=
  {| student_name := None; company := None; role_keywords := None;
     skill := None; course := None; threshold := None;
     query_type := None |}.

(** [entities[key] = v], one function per key that is ever assigned. *)
Definition set_query_type (v : str) (e : entities) : entities :=
  {| student_name := student_name e; company := company e;
     role_keywords := role_keywords e; skill := skill e;
     course := course e; threshold := threshold e;
     query_type := Some v |}.

Definition set_student_name (v : option str) (e : entities) : entities :=
  {| student_name := v; company := company e;
     role_keywords := role_keywords e; skill := skill e;
     course := course e; threshold := threshold e;
     query_type := query_type e |}.

Definition set_company (v : str) (e : entities) : entities :=
  {| student_name := student_name e; company := Some v;
     role_keywords := role_keywords e; skill := skill e;
     course := course e; threshold := threshold e;
     query_type := query_type e |}.

Definition set_role_keywords (v : str) (e : entities) : entities :=
  {| student_name := student_name e; company := company e;
     role_keywords := Some v; skill := skill e;
     course := course e; threshold := threshold e;
     query_type := query_type e |}.

Definition set_skill (v : str) (e : entities) : entities :=
  {| student_name := student_name e; company := company e;
     role_keywords := role_keywords e; skill := Some v;
     course := course e; threshold := threshold e;
     query_type := query_type e |}.

Definition set_threshold (v : PyFloat.float) (e : entities) : entities :=
  {| student_name := student_name e; company := company e;
     role_keywords := role_keywords e; skill := skill e;
     course := course e; threshold := Some v;
     query_type := query_type e |}.

(** [any(word in text for word in words)] *)
Definition any_in (words : list str) (text : str) : bool :=
  existsb (fun word => contains word text) words.

(** The [if]/[elif] cascade under "Detect query type". *)
Definition detect_query_type (query_lower : str) : str :=
  if any_in [lit "recommend"; lit "suggest"] query_lower
  then lit "recommendation"
  else if contains (lit "missing skill") query_lower
          || contains (lit "skill gap") query_lower
          || (contains (lit "missing") query_lower
              && contains (lit "skill") query_lower)
  then lit "gap_analysis"
  else if any_in [lit "qualify"; lit "eligible"; lit "match"] query_lower
  then lit "matching"
  else if any_in [lit "count"; lit "average"; lit "sum"; lit "how many"]
                 query_lower
  then lit "aggregation"
  else lit "retrieval".

(** [[A-Z][a-z]+(?:\s+[A-Z][a-z]+)*], the body of group 1 in every
    student pattern. *)
Definition capitalized : regex := Cat upper_AZ (Plus lower_az).
Definition name_words : regex :=
  Cat capitalized (Star (Cat (Plus space) capitalized)).

Definition student_patterns : list regex :=
  [ Cat (Str (lit "for")) (Cat (Plus space) (Grp name_words));
    Cat (Str (lit "to"))
        (Cat (Plus space)
             (Cat (Grp name_words) (Cat (Plus space) (Str (lit "to")))));
    Cat (Grp name_words) (Alt (Chr "'"%char) (Chr "s"%char));
    Cat (Str (lit "student")) (Cat (Plus space) (Grp name_words));
    Cat (Str (lit "of")) (Cat (Plus space) (Grp name_words));
    Cat (Str (lit "does"))
        (Cat (Plus space)
             (Cat (Grp name_words) (Cat (Plus space) (Str (lit "have")))));
    Cat (Str (lit "skills for")) (Cat (Plus space) (Grp name_words)) ].

(** The loop over [student_patterns]: the first pattern that matches
    anywhere sets the name and ends the loop.  Group 1 takes part in
    every match of these patterns, so [match.group(1)] is a string. *)
Fixpoint find_student (patterns : list regex) (query : str)
         (e : entities) : entities :=
  match patterns with
  | [] => e
  | pattern :: rest =>
      match search pattern query with
      | Some m => set_student_name (option_map lower (group1 m)) e
      | None => find_student rest query e
      end
  end.

Definition companies : list str :=
  [ lit "google"; lit "amazon"; lit "microsoft"; lit "meta"; lit "apple";
    lit "netflix"; lit "facebook"; lit "ibm"; lit "oracle";
    lit "salesforce"; lit "tesla"; lit "uber" ].

(** The dictionary [roles], in insertion order (the order in which
    [roles.items()] yields it). *)
Definition roles : list (str * list str) :=
  [ (lit "software",
     [ lit "software"; lit "engineer"; lit "developer"; lit "swe";
       lit "backend"; lit "frontend"; lit "full stack" ]);
    (lit "ml",
     [ lit "ml"; lit "machine learning"; lit "ai";
       lit "artificial intelligence" ]);
    (lit "data",
     [ lit "data scientist"; lit "data analyst"; lit "data engineer" ]);
    (lit "cloud", [ lit "cloud"; lit "devops"; lit "infrastructure" ]) ].

Definition common_skills : list str :=
  [ lit "python"; lit "java"; lit "javascript"; lit "react"; lit "sql";
    lit "machine learning"; lit "deep learning"; lit "aws"; lit "docker";
    lit "kubernetes"; lit "node"; lit "angular"; lit "vue"; lit "django";
    lit "flask"; lit "spring"; lit "c++"; lit "c#"; lit "ruby" ].

(** [(?:>|above|greater than|more than)\s*(\d+(?:\.\d+)?)] *)
Definition threshold_pattern : regex :=
  Cat (Alt (Str (lit ">"))
           (Alt (Str (lit "above"))
                (Alt (Str (lit "greater than")) (Str (lit "more than")))))
      (Cat (Star space)
           (Grp (Cat (Plus digit)
                     (Opt (Cat (Chr "."%char) (Plus digit)))))).

Definition extract_entities (query : str) : entities :=
  let entities := init_entities in
  let query_lower := lower query in
  (* Detect query type *)
  let entities := set_query_type (detect_query_type query_lower) entities in
  (* Extract student names *)
  let entities := find_student student_patterns query entities in
  (* Extract company names *)
  let entities :=
    match find (fun company => contains company query_lower) companies with
    | Some company => set_company company entities
    | None => entities
    end in
  (* Extract role keywords *)
  let entities :=
    match find (fun item => any_in (snd item) query_lower) roles with
    | Some (role_key, _) => set_role_keywords role_key entities
    | None => entities
    end in
  (* Extract skills *)
  let entities :=
    match find (fun skill => contains skill query_lower) common_skills with
    | Some skill => set_skill skill entities
    | None => entities
    end in
  (* Extract thresholds *)
  let entities :=
    match search threshold_pattern query_lower with
    | Some m =>
        match group1 m with
        | Some text => set_threshold (PyFloat.of_str text) entities
        | None => entities
        end
    | None => entities
    end in
  entities.

End Extractor.

Import Extractor.

(** ** [intelligent_fallback]: the template synthesizer *)

Module Fallback.

(** [str(v)] as an f-string inserts it: the text itself, or [None]. *)
Definition fmt (v : option str) : str :=
  match v with
  | Some s => s
  | None => lit "None"
  end.

(** Truthiness of an optional string ([None] and [''] are falsy) and of
    an optional float ([None] and [0.0] are falsy). *)
Definition truthy (v : option str) : bool :=
  match v with
  | Some s => nonempty s
  | None => false
  end.

Definition truthy_float (v : option PyFloat.float) : bool :=
  match v with
  | Some x => PyFloat.truthy x
  | None => false
  end.

Definition fmt_float (v : option PyFloat.float) : str :=
  match v with
  | Some x => PyFloat.repr x
  | None => lit "None"
  end.

(** [query_type == 'name'] *)
Definition is_type (v : option str) (name : str) : bool :=
  match v with
  | Some s => str_eqb s name
  | None => false
  end.

(** A triple-quoted template, written line by line. *)
Definition unlines (ls : list str) : str := join [newline] ls.

Definition requirement_met : str :=
  lit "[req IN requirements WHERE any(ss IN student_skills WHERE ss.skill = req.skill AND ss.level >= req.min_level)] as met_requirements".

(** Branch 1, eligibility of students for a company's internships. *)
Definition eligibility_template (company : option str) : str :=
  unlines
    [ lit "MATCH (i:Internship)";
      lit "WHERE toLower(i.company) CONTAINS '" ++ fmt company ++ lit "'";
      lit "MATCH (i)-[r:REQUIRES]->(req_skill:Skill)";
      lit "WITH i, collect({skill: req_skill, min_level: r.min_proficiency}) as requirements";
      lit "MATCH (s:Student)";
      lit "OPTIONAL MATCH (s)-[has:HAS_SKILL]->(skill:Skill)";
      lit "WITH s, i, requirements, collect({skill: skill, level: has.proficiency}) as student_skills";
      lit "WITH s, i, requirements, student_skills, " ++ requirement_met;
      lit "WITH s, i, size(met_requirements) * 100.0 / size(requirements) as match_percent";
      lit "WHERE match_percent >= 70";
      lit "RETURN s.id AS Student_ID, s.name AS Name, s.major AS Major, s.gpa AS GPA, i.company AS Company, i.role AS Role, round(match_percent, 1) AS Match_Percent";
      lit "ORDER BY Match_Percent DESC, s.gpa DESC";
      lit "LIMIT 20" ].

(** Branch 2, internships recommended to a student. *)
Definition internship_recommendation_template (student : option str)
  : str :=
  unlines
    [ lit "MATCH (s:Student)-[has:HAS_SKILL]->(skill:Skill)";
      lit "WHERE toLower(s.name) CONTAINS '" ++ fmt student ++ lit "'";
      lit "WITH s, collect({skill: skill, level: has.proficiency}) as student_skills";
      lit "MATCH (i:Internship)-[r:REQUIRES]->(req_skill:Skill)";
      lit "WITH s, i, student_skills, collect({skill: req_skill, min_level: r.min_proficiency}) as requirements";
      lit "WITH s, i, requirements, student_skills, " ++ requirement_met;
      lit "WITH i, size(met_requirements) * 100.0 / size(requirements) as match_percent";
      lit "WHERE match_percent >= 40";
      lit "RETURN i.company AS Company, i.role AS Role, i.location AS Location, round(match_percent, 1) AS Match_Percent";
      lit "ORDER BY Match_Percent DESC";
      lit "LIMIT 10" ].

(** [role_filter] of branches 3 and 4: present only for a truthy role. *)
Definition role_filter (role : option str) : str :=
  if truthy role
  then lit "AND toLower(i.role) CONTAINS '" ++ fmt role ++ lit "'"
  else [].

(** Branch 3, courses that close the gap to an internship. *)
Definition course_gap_template (student company role : option str) : str :=
  unlines
    [ lit "MATCH (s:Student)";
      lit "WHERE toLower(s.name) CONTAINS '" ++ fmt student ++ lit "'";
      lit "MATCH (i:Internship)";
      lit "WHERE toLower(i.company) CONTAINS '" ++ fmt company ++ lit "' "
        ++ role_filter role;
      lit "MATCH (i)-[r:REQUIRES]->(needed:Skill)";
      lit "OPTIONAL MATCH (s)-[has:HAS_SKILL]->(needed)";
      lit "WHERE has IS NULL OR has.proficiency < r.min_proficiency";
      lit "WITH s, needed, r.min_proficiency as required_level, COALESCE(has.proficiency, 0) as current_level";
      lit "MATCH (c:Course)-[:TEACHES]->(needed)";
      lit "WHERE NOT (s)-[:COMPLETED]->(c) AND NOT (s)-[:ENROLLED_IN]->(c)";
      lit "WITH c, collect(DISTINCT needed.name) as skills_taught, avg(required_level - current_level) as avg_gap";
      lit "RETURN DISTINCT c.name AS Course, c.code AS Code, c.credits AS Credits, skills_taught AS Skills_Taught, round(avg_gap, 1) AS Skill_Gap_Filled";
      lit "ORDER BY Skill_Gap_Filled DESC";
      lit "LIMIT 10" ].

(** Branch 4, skill gaps of a student for an internship. *)
Definition skill_gap_template (student company role : option str) : str :=
  unlines
    [ lit "MATCH (s:Student)";
      lit "WHERE toLower(s.name) CONTAINS '" ++ fmt student ++ lit "'";
      lit "MATCH (i:Internship)";
      lit "WHERE toLower(i.company) CONTAINS '" ++ fmt company ++ lit "' "
        ++ role_filter role;
      lit "MATCH (i)-[r:REQUIRES]->(skill:Skill)";
      lit "OPTIONAL MATCH (s)-[has:HAS_SKILL]->(skill)";
      lit "WITH skill, r.min_proficiency as required, COALESCE(has.proficiency, 0) as current";
      lit "WHERE current < required";
      lit "RETURN skill.name AS Skill, skill.category AS Category, required AS Required_Level, current AS Current_Level, (required - current) AS Gap, CASE WHEN current = 0 THEN 'Missing' WHEN current < required THEN 'Weak' ELSE 'Sufficient' END AS Status";
      lit "ORDER BY Gap DESC" ].

(** Branch 5, students holding a skill: the two texts of the inner
    [if threshold:]. *)
Definition skill_filter_bounded_template
           (skill : option str) (threshold : option PyFloat.float) : str :=
  unlines
    [ lit "MATCH (s:Student)-[has:HAS_SKILL]->(sk:Skill)";
      lit "WHERE toLower(sk.name) CONTAINS '" ++ fmt skill
        ++ lit "' AND has.proficiency > " ++ fmt_float threshold;
      lit "RETURN s.id AS ID, s.name AS Name, s.major AS Major, s.gpa AS GPA, has.proficiency AS Proficiency";
      lit "ORDER BY has.proficiency DESC";
      lit "LIMIT 20" ].

Definition skill_filter_template (skill : option str) : str :=
  unlines
    [ lit "MATCH (s:Student)-[has:HAS_SKILL]->(sk:Skill)";
      lit "WHERE toLower(sk.name) CONTAINS '" ++ fmt skill ++ lit "'";
      lit "RETURN s.id AS ID, s.name AS Name, s.major AS Major, s.gpa AS GPA, has.proficiency AS Proficiency";
      lit "ORDER BY has.proficiency DESC";
      lit "LIMIT 20" ].

(** Branch 6, the skills of a student. *)
Definition student_skills_template (student : option str) : str :=
  unlines
    [ lit "MATCH (s:Student)-[has:HAS_SKILL]->(sk:Skill)";
      lit "WHERE toLower(s.name) CONTAINS '" ++ fmt student ++ lit "'";
      lit "RETURN sk.name AS Skill, sk.category AS Category, has.proficiency AS Proficiency";
      lit "ORDER BY has.proficiency DESC" ].

(** Branch 7, the courses teaching a skill. *)
Definition skill_courses_template (skill : option str) : str :=
  unlines
    [ lit "MATCH (c:Course)-[:TEACHES]->(sk:Skill)";
      lit "WHERE toLower(sk.name) CONTAINS '" ++ fmt skill ++ lit "'";
      lit "RETURN c.name AS Course, c.code AS Code, c.credits AS Credits, c.difficulty AS Difficulty";
      lit "ORDER BY c.name";
      lit "LIMIT 20" ].

(** Branch 8, students counted by major. *)
Definition count_by_major_template : str :=
  unlines
    [ lit "MATCH (s:Student)";
      lit "RETURN s.major AS Major, count(s) AS Student_Count";
      lit "ORDER BY Student_Count DESC" ].

(** Branch 9, average GPA by major. *)
Definition average_gpa_template : str :=
  unlines
    [ lit "MATCH (s:Student)";
      lit "RETURN s.major AS Major, round(avg(s.gpa), 2) AS Average_GPA, count(s) AS Students";
      lit "ORDER BY Average_GPA DESC" ].

(** Branch 10, the default: all students. *)
Definition list_all_students_template : str :=
  unlines
    [ lit "MATCH (s:Student)";
      lit "RETURN s.id AS ID, s.name AS Name, s.major AS Major, s.year AS Year, s.gpa AS GPA";
      lit "ORDER BY s.name";
      lit "LIMIT 20" ].

(** The guards of the nine [if]/[elif] branches, in source order.  [q]
    is the lower-cased utterance. *)
Definition guard1 (q : str) (e : entities) : bool :=
  is_type (query_type e) (lit "matching")
  && contains (lit "student") q && truthy (company e).
Definition guard2 (q : str) (e : entities) : bool :=
  is_type (query_type e) (lit "recommendation")
  && contains (lit "internship") q && truthy (student_name e).
Definition guard3 (q : str) (e : entities) : bool :=
  is_type (query_type e) (lit "recommendation")
  && contains (lit "course") q
  && truthy (student_name e) && truthy (company e).
Definition guard4 (q : str) (e : entities) : bool :=
  is_type (query_type e) (lit "gap_analysis")
  && truthy (student_name e) && truthy (company e).
Definition guard5 (q : str) (e : entities) : bool :=
  truthy (skill e) && contains (lit "student") q.
Definition guard6 (q : str) (e : entities) : bool :=
  truthy (student_name e) && contains (lit "skill") q.
Definition guard7 (q : str) (e : entities) : bool :=
  truthy (skill e) && contains (lit "course") q.
Definition guard8 (q : str) (e : entities) : bool :=
  is_type (query_type e) (lit "aggregation")
  && contains (lit "major") q.
Definition guard9 (q : str) (e : entities) : bool :=
  is_type (query_type e) (lit "aggregation") && contains (lit "gpa") q.

(** [entities.get('threshold', 8)]: the key [threshold] is in every
    record, so the stored value is returned, [None] included, and the
    default 8 never is. *)
Definition intelligent_fallback (query : str) (entities : entities) : str :=
  let q := lower query in
  let query_type := query_type entities in
  let student := student_name entities in
  let company := company entities in
  let role := role_keywords entities in
  let skill := skill entities in
  let threshold := threshold entities in
  if guard1 q entities then eligibility_template company
  else if guard2 q entities then internship_recommendation_template student
  else if guard3 q entities then course_gap_template student company role
  else if guard4 q entities then skill_gap_template student company role
  else if guard5 q entities then
    if truthy_float threshold
    then skill_filter_bounded_template skill threshold
    else skill_filter_template skill
  else if guard6 q entities then student_skills_template student
  else if guard7 q entities then skill_courses_template skill
  else if guard8 q entities then count_by_major_template
  else if guard9 q entities then average_gpa_template
  else list_all_students_template.

End Fallback.

Import Fallback.

(** ** The response sanitizer *)

Module Sanitizer.

Definition order_by_avg_gap : str := lit "ORDER BY avg_gap".
Definition as_skill_gap_filled : str := lit "as Skill_Gap_Filled".
Definition order_by_skill_gap_filled : str :=
  lit "ORDER BY Skill_Gap_Filled".
Definition order_by_match_percent : str := lit "ORDER BY match_percent".
Definition as_match_percent : str := lit "as Match_Percent".
Definition order_by_Match_Percent : str := lit "ORDER BY Match_Percent".

(** The two [if]s of [_fix_cypher_scoping], one rule each. *)
Definition fix_avg_gap (cypher : str) : str :=
  if contains order_by_avg_gap cypher
     && contains as_skill_gap_filled cypher
  then replace order_by_avg_gap order_by_skill_gap_filled cypher
  else cypher.

Definition fix_match_percent (cypher : str) : str :=
  if contains order_by_match_percent cypher
     && contains as_match_percent cypher
  then replace order_by_match_percent order_by_Match_Percent cypher
  else cypher.

Definition _fix_cypher_scoping (cypher : str) : str :=
  let cypher := fix_avg_gap cypher in
  let cypher := fix_match_percent cypher in
  cypher.

Definition markers : list str :=
  [ lit "explanation:"; lit "note:"; lit "this query"; lit "the query";
    lit "here's"; lit "i've"; lit "you can"; lit "* the"; lit "* `";
    lit "however," ].

(** [any(marker in line.lower() for marker in [...])] *)
Definition has_marker (line : str) : bool :=
  existsb (fun marker => contains marker (lower line)) markers.

(** The [for line in lines] loop; [cypher_lines] is the list built so
    far.  Reaching a marker is the [break]. *)
Fixpoint collect_lines (lines cypher_lines : list str) : list str :=
  match lines with
  | [] => cypher_lines
  | raw :: rest =>
      let line := strip raw in
      if has_marker line then cypher_lines
      else if negb (nonempty cypher_lines) && negb (nonempty line)
      then collect_lines rest cypher_lines
      else if nonempty line && negb (startswith (lit "//") line)
      then collect_lines rest (cypher_lines ++ [line])
      else collect_lines rest cypher_lines
  end.

Definition _clean_cypher_response (response : str) : str :=
  let response :=
    strip (replace (lit "```") [] (replace (lit "```cypher") [] response)) in
  let lines := split newline response in
  let cypher_lines := collect_lines lines [] in
  let cypher := strip (join [newline] cypher_lines) in
  let cypher := strip (rstrip_chars (lit ";") cypher) in
  let cypher := _fix_cypher_scoping cypher in
  cypher.

(** The conditions of the two [if]s: the ordering clause together with
    the alias it should have used. *)
Definition avg_gap_pairing (cypher : str) : bool :=
  contains order_by_avg_gap cypher && contains as_skill_gap_filled cypher.

Definition match_percent_pairing (cypher : str) : bool :=
  contains order_by_match_percent cypher
  && contains as_match_percent cypher.

(** The value of [cypher] in [_clean_cypher_response] just before the
    scoping fix. *)
Definition before_fix (response : str) : str :=
  strip (rstrip_chars (lit ";")
           (strip (join [newline]
              (collect_lines
                 (split newline
                    (strip (replace (lit "```") []
                              (replace (lit "```cypher") [] response))))
                 [])))).

End Sanitizer.

Import Sanitizer.

(** ** The query-type cascade as the specification words it

    An ordered table of (test on the lower-cased utterance, query type);
    the first row whose test holds wins, and [retrieval] is the type when
    none does. *)

Module Spec.

Definition mentions (word : string) (utterance : str) : bool :=
  contains (lit word) utterance.

Definition rules : list ((str -> bool) * str) :=
  [ (fun u => mentions "recommend" u || mentions "suggest" u,
     lit "recommendation");
    (fun u => mentions "missing skill" u || mentions "skill gap" u
              || (mentions "missing" u && mentions "skill" u),
     lit "gap_analysis");
    (fun u => mentions "qualify" u || mentions "eligible" u
              || mentions "match" u,
     lit "matching");
    (fun u => mentions "count" u || mentions "average" u
              || mentions "sum" u || mentions "how many" u,
     lit "aggregation") ].

Fixpoint first_match (table : list ((str -> bool) * str)) (u : str)
  : str :=
  match table with
  | [] => lit "retrieval"
  | (test, type) :: rest => if test u then type else first_match rest u
  end.

Definition classify (utterance : str) : str :=
  first_match rules (lower utterance).

Definition query_types : list str :=
  [ lit "retrieval"; lit "matching"; lit "recommendation";
    lit "gap_analysis"; lit "aggregation" ].

End Spec.

(** ** Example utterances and responses *)

Module Examples.

Definition bob_smith : str :=
  lit "Show skill gaps for Bob Smith for Amazon ML Engineer".
Definition python_above_8 : str :=
  lit "Students with Python proficiency above 8".
Definition python_above_0 : str :=
  lit "Students with Python proficiency above 0".
Definition google_python : str :=
  lit "Find students who qualify for Google and know Python".
Definition hello : str := lit "hello".


End Examples.

(** ** Predicates on texts used in the statements and proofs

    Occurrences of one pattern against another: [compat a b] says that one
    of the two is a prefix of the other; [clash x q] that [q] can begin at
    some position inside [x] in a text [x ++ y]; [tails_clash x q] that [x]
    can begin at some position inside [q]. *)

Module Shape.

Definition compat (a b : str) : bool := startswith a b || startswith b a.

Fixpoint clash (x q : str) : bool :=
  match x with
  | [] => false
  | _ :: x' => compat x q || clash x' q
  end.

Fixpoint tails_clash (x q : str) : bool :=
  match q with
  | [] => false
  | _ :: q' => compat x q || tails_clash x q'
  end.

(** Replacing [old] by [new] can neither create nor destroy an
    occurrence of [q]. *)
Definition independent (old new q : str) : bool :=
  negb (tails_clash old q) && negb (tails_clash new q)
  && negb (clash old q) && negb (clash new q).

(** Replacing [old] by [new] cannot create an occurrence of [old]. *)
Definition border_free (old new : str) : bool :=
  negb (tails_clash old (tl old)) && negb (tails_clash new (tl old))
  && negb (clash new old).

(** No white space at the start, at the end. *)
Definition starts_ok (s : str) : bool :=
  match s with
  | [] => true
  | c :: _ => negb (is_space c)
  end.

Definition ends_ok (s : str) : bool := starts_ok (rev s).

(** The code fence, three back-quotes: [lit "```"]. *)
Definition tick : ascii := "`"%char.
Definition fence : str := [tick; tick; tick].

(** A line as the sanitizer's loop keeps it, seen after the whole
    clean-up: not empty, trimmed, one line, free of explanation markers,
    not a comment, free of code fences. *)
Definition tidy (l : str) : Prop :=
  l <> [] /\ starts_ok l = true /\ ends_ok l = true /\ ~ In newline l
  /\ has_marker l = false /\ startswith (lit "//") l = false
  /\ contains fence l = false.

(** A newline-free piece of a text. *)
Definition piece_of (s l : str) : Prop :=
  ~ In newline l /\ exists a b, s = a ++ l ++ b.

End Shape.

Import Shape.

(** ** What the matcher accepts

    [matches r u g g']: the pattern [r] can consume exactly the text [u],
    taking the text of group 1 from [g] to [g']. *)

Module ReSem.
Import Re.

Inductive matches : regex -> str -> option str -> option str -> Prop :=
| M_Eps g : matches Eps [] g g
| M_Cls p c g : p c = true -> matches (Cls p) [c] g g
| M_Cat r1 r2 u1 u2 g g1 g2 :
    matches r1 u1 g g1 -> matches r2 u2 g1 g2 ->
    matches (Cat r1 r2) (u1 ++ u2) g g2
| M_AltL r1 r2 u g g1 : matches r1 u g g1 -> matches (Alt r1 r2) u g g1
| M_AltR r1 r2 u g g1 : matches r2 u g g1 -> matches (Alt r1 r2) u g g1
| M_StarNil r g : matches (Star r) [] g g
| M_StarCons r u1 u2 g g1 g2 :
    matches r u1 g g1 -> matches (Star r) u2 g1 g2 ->
    matches (Star r) (u1 ++ u2) g g2
| M_Grp r u g g1 : matches r u g g1 -> matches (Grp r) u g (Some u).

(** Every text that group 1 of [r] can take satisfies [P]. *)
Fixpoint groups_sat (P : str -> Prop) (r : regex) : Prop :=
  match r with
  | Eps => True
  | Cls _ => True
  | Cat a b => groups_sat P a /\ groups_sat P b
  | Alt a b => groups_sat P a /\ groups_sat P b
  | Star a => groups_sat P a
  | Grp a => forall u g g1, matches a u g g1 -> P u
  end.

Definition captured (P : str -> Prop) (g : option str) : Prop :=
  match g with
  | Some w => P w
  | None => True
  end.

(** The 256 characters. *)
Definition all_ascii : list ascii := map ascii_of_nat (seq 0 256).

Definition subclass (q p : ascii -> bool) : bool :=
  forallb (fun c => implb (q c) (p c)) all_ascii.

(** [within p r]: [r] only consumes characters of the class [p];
    [needs p r]: every match of [r] consumes a character of [p]. *)
Fixpoint within (p : ascii -> bool) (r : regex) : bool :=
  match r with
  | Eps => true
  | Cls q => subclass q p
  | Cat a b => within p a && within p b
  | Alt a b => within p a && within p b
  | Star a => within p a
  | Grp a => within p a
  end.

Fixpoint needs (p : ascii -> bool) (r : regex) : bool :=
  match r with
  | Eps => false
  | Cls q => subclass q p
  | Cat a b => needs p a || needs p b
  | Alt a b => needs p a && needs p b
  | Star _ => false
  | Grp a => needs p a
  end.

End ReSem.

Import ReSem.

(** ** Character classes of the extracted values *)

Module Chars.

Definition is_upper (c : ascii) : bool := in_range 65 90 c.
Definition is_lower (c : ascii) : bool := in_range 97 122 c.
Definition letter_or_space (c : ascii) : bool :=
  is_upper c || is_lower c || is_space c.
Definition lower_or_space (c : ascii) : bool := is_lower c || is_space c.

(** Neither a single quote nor a backslash: a character that cannot end
    or escape out of a quoted Cypher literal. *)
Definition inert (c : ascii) : bool :=
  negb (Ascii.eqb c "'"%char) && negb (code c =? 92).

Definition quote_free (s : str) : bool := forallb inert s.

(** A captured name as the patterns take it: a capital, a small letter,
    then letters and white space. *)
Definition name_shape (u : str) : Prop :=
  (exists c d rest, u = c :: d :: rest /\ is_upper c = true
                    /\ is_lower d = true)
  /\ Forall (fun c => letter_or_space c = true) u.

(** The stored name: the same after [lower]. *)
Definition stored_name_shape (n : str) : Prop :=
  (exists c d rest, n = c :: d :: rest /\ is_lower c = true
                    /\ is_lower d = true)
  /\ Forall (fun c => lower_or_space c = true) n.

(** [x] is the first entry of [table] that [hit] accepts; no entry is. *)
Definition first_hit {A : Type} (hit : A -> bool) (table : list A) (x : A)
  : Prop :=
  hit x = true
  /\ exists before after,
       table = before ++ x :: after
       /\ forallb (fun y => negb (hit y)) before = true.

Definition no_hit {A : Type} (hit : A -> bool) (table : list A) : Prop :=
  forallb (fun y => negb (hit y)) table = true.

End Chars.

Import Chars.

(** ** [_call_groq] and [generate_cypher_query]

    The chat-completion request is the outside world.  Its outcome, as far
    as [_call_groq] looks at it, is either the text of the first choice or
    an exception raised somewhere between sending the request and reading
    that text.  The system prompt, the model name and the sampling
    parameters are constants of the request; the client is modelled as a
    function of the user message. *)

Module Orchestrator.

Inductive completion : Type :=
| Content (text : str)
| Raised (message : str).

Definition dquote : ascii := ascii_of_nat 34.

(** The f-string [context].  Every key is in the record, so each
    [entities.get(key, default)] is the stored value and prints as [None]
    when the field is unset. *)
Definition context (prompt : str) (entities : entities) : str :=
  unlines
    [ lit "Convert this natural language query to Cypher: "
        ++ [dquote] ++ prompt ++ [dquote];
      lit "";
      lit "Extracted Context:";
      lit "- Query Type: " ++ fmt (query_type entities);
      lit "- Student: " ++ fmt (student_name entities);
      lit "- Company: " ++ fmt (company entities);
      lit "- Role: " ++ fmt (role_keywords entities);
      lit "- Skill: " ++ fmt (skill entities);
      lit "- Threshold: " ++ fmt_float (threshold entities);
      lit "";
      lit "Generate the appropriate Cypher query based on the patterns in your knowledge." ].

(** [_call_groq]: the cleaned reply ([inl]), or the exception it raises
    ([inr], with its message). *)
Definition _call_groq (client : str -> completion) (prompt : str)
           (entities : entities) : str + str :=
  let context := context prompt entities in
  match client context with
  | Content content => inl (_clean_cypher_response (strip content))
  | Raised e => inr (lit "Groq API error: " ++ e)
  end.

(** [generate_cypher_query]: the [except] branch is the fallback. *)
Definition generate_cypher_query (client : str -> completion)
           (natural_language_query : str) : str :=
  let entities := extract_entities natural_language_query in
  match _call_groq client natural_language_query entities with
  | inl cypher_query => cypher_query
  | inr _ => intelligent_fallback natural_language_query entities
  end.

End Orchestrator.

(** ** [recommender.py]: requests and [execute_query]

    Numbers, the scalars a result row can hold, Python lists and the
    [_properties] dictionaries of nodes are left abstract; the graph driver
    is a function from a query and its parameters to the rows it yields or
    to the message of the exception it raises. *)

Module Recommender.




Definition courses_for_student_query : str :=
  unlines
    [ lit "";
      lit "            MATCH (s:Student {id: $student_id})";
      lit "            MATCH (i:Internship)-[:REQUIRES]->(req_skill:Skill)";
      lit "            OPTIONAL MATCH (s)-[has:HAS_SKILL]->(req_skill)";
      lit "            ";
      lit "            WITH s, req_skill, COALESCE(has.proficiency, 0) AS current_level";
      lit "            WHERE current_level < 7";
      lit "            ";
      lit "            MATCH (c:Course)-[:TEACHES]->(req_skill)";
      lit "            WHERE NOT (s)-[:COMPLETED]->(c)";
      lit "            AND NOT (s)-[:ENROLLED_IN]->(c)";
      lit "            ";
      lit "            RETURN DISTINCT c.name as course,";
      lit "                   c.code as code,";
      lit "                   c.credits as credits,";
      lit "                   c.difficulty as difficulty,";
      lit "                   collect(DISTINCT req_skill.name) as teaches_skills";
      lit "            ORDER BY c.difficulty";
      lit "            LIMIT 5";
      lit "            " ].

Definition courses_for_skill_query : str :=
  unlines
    [ lit "";
      lit "            MATCH (c:Course)-[:TEACHES]->(sk:Skill)";
      lit "            WHERE sk.name CONTAINS $skill_name";
      lit "            RETURN c.name as course,";
      lit "                   c.code as code,";
      lit "                   c.credits as credits,";
      lit "                   c.difficulty as difficulty,";
      lit "                   c.description as description,";
      lit "                   collect(sk.name) as teaches_skills";
      lit "            LIMIT 5";
      lit "            " ].

Definition all_courses_query : str :=
  unlines
    [ lit "";
      lit "            MATCH (c:Course)";
      lit "            RETURN c.name as course, c.credits, c.difficulty";
      lit "            LIMIT 10";
      lit "            " ].

Definition internships_query : str :=
  unlines
    [ lit "";
      lit "        MATCH (s:Student {id: $student_id})-[has:HAS_SKILL]->(student_skill:Skill)";
      lit "        WITH s, collect({skill: student_skill, level: has.proficiency}) AS student_skills";
      lit "        ";
      lit "        MATCH (i:Internship)-[r:REQUIRES]->(req_skill:Skill)";
      lit "        WITH s, i, student_skills,";
      lit "             collect({skill: req_skill, min_level: r.min_proficiency, ";
      lit "                     mandatory: r.is_mandatory}) AS requirements";
      lit "        ";
      lit "        WITH s, i, student_skills, requirements,";
      lit "             [req IN requirements WHERE ";
      lit "              any(ss IN student_skills WHERE ss.skill = req.skill ";
      lit "                  AND ss.level >= req.min_level)] AS met_requirements";
      lit "        ";
      lit "        WITH s, i, requirements, met_requirements,";
      lit "             size(met_requirements) * 100.0 / size(requirements) AS match_percentage";
      lit "        ";
      lit "        WHERE match_percentage >= 50";
      lit "        ";
      lit "        RETURN i.company AS company,";
      lit "               i.role AS role,";
      lit "               i.location AS location,";
      lit "               i.type AS internship_type,";
      lit "               round(match_percentage, 1) AS match_percent,";
      lit "               size(requirements) - size(met_requirements) AS skills_to_develop";
      lit "        ORDER BY match_percentage DESC";
      lit "        LIMIT 10";
      lit "        " ].

Definition skill_gap_query : str :=
  unlines
    [ lit "";
      lit "        MATCH (s:Student {id: $student_id})";
      lit "        MATCH (i:Internship {id: $internship_id})-[r:REQUIRES]->(req_skill:Skill)";
      lit "        ";
      lit "        OPTIONAL MATCH (s)-[has:HAS_SKILL]->(req_skill)";
      lit "        ";
      lit "        WITH s, i, req_skill, r.min_proficiency AS required_level,";
      lit "             COALESCE(has.proficiency, 0) AS current_level";
      lit "        ";
      lit "        RETURN req_skill.name AS skill,";
      lit "               required_level AS required,";
      lit "               current_level AS current,";
      lit "               required_level - current_level AS gap,";
      lit "               CASE ";
      lit "                   WHEN current_level = 0 THEN 'Missing'";
      lit "                   WHEN current_level < required_level THEN 'Weak'";
      lit "                   ELSE 'Sufficient'";
      lit "               END AS status";
      lit "        ORDER BY gap DESC";
      lit "        " ].

Definition student_profile_query : str :=
  unlines
    [ lit "";
      lit "        MATCH (s:Student {id: $student_id})";
      lit "        ";
      lit "        OPTIONAL MATCH (s)-[has:HAS_SKILL]->(sk:Skill)";
      lit "        WITH s, collect({skill: sk.name, proficiency: has.proficiency, ";
      lit "                        category: sk.category}) AS skills";
      lit "        ";
      lit "        OPTIONAL MATCH (s)-[:COMPLETED]->(c:Course)";
      lit "        WITH s, skills, collect(c.name) AS completed_courses";
      lit "        ";
      lit "        OPTIONAL MATCH (s)-[:COMPLETED]->(p:Project)";
      lit "        WITH s, skills, completed_courses, collect(p.title) AS completed_projects";
      lit "        ";
      lit "        RETURN s.name AS name,";
      lit "               s.major AS major,";
      lit "               s.year AS year,";
      lit "               s.gpa AS gpa,";
      lit "               s.email AS email,";
      lit "               skills,";
      lit "               completed_courses,";
      lit "               completed_projects,";
      lit "               size(skills) AS total_skills,";
      lit "               size(completed_courses) AS total_courses,";
      lit "               size(completed_projects) AS total_projects";
      lit "        " ].

Definition search_query (where_clause : str) : str :=
  unlines
    [ lit "";
      lit "        MATCH (s:Student)";
      lit "        WHERE " ++ where_clause;
      lit "        RETURN s.name AS name,";
      lit "               s.major AS major,";
      lit "               s.year AS year,";
      lit "               s.gpa AS gpa";
      lit "        ORDER BY s.gpa DESC";
      lit "        LIMIT 20";
      lit "        " ].

Section Engine.
Variable num : Type.
Variable num_truthy : num -> bool.
Variable scalar : Type.
Variable pylist : Type.
Variable properties : Type.

(** A value bound to a query parameter. *)
Inductive arg : Type :=
| AStr (s : str)
| ANum (x : num).

Definition params : Type := list (str * arg).

(** A value of a result row, by the cases [execute_query] tells apart:
    [None]; [str], [int], [float] or [bool]; a list; a node or a
    relationship (it has [_properties]); anything else, with its [str()]. *)
Inductive neo_value : Type :=
| NNull
| NScalar (v : scalar)
| NList (items : pylist)
| NEntity (props : properties)
| NOther (shown : str).

(** What the row dictionaries hold after the conversion. *)
Inductive plain_value : Type :=
| PNull
| PScalar (v : scalar)
| PList (items : pylist)
| PDict (props : properties)
| PText (s : str).

Definition record : Type := list (str * neo_value).
Definition row : Type := list (str * plain_value).

Definition driver : Type := option (str -> params -> list record + str).

(** The dictionary [execute_query] returns. *)
Record result : Type := {
  success : bool;
  data : list row;
  count : nat;
  error : option str
}.

Definition convert (value : neo_value) : plain_value :=
  match value with
  | NNull => PNull
  | NScalar v => PScalar v
  | NList items => PList items
  | NEntity props => PDict props
  | NOther shown => PText shown
  end.

Definition record_dict (r : record) : row :=
  map (fun kv => (fst kv, convert (snd kv))) r.

Definition execute_query (d : driver) (query : str) (p : option params)
  : result :=
  let p := match p with None => [] | Some p => p end in
  match d with
  | None =>
      {| success := false;
         error := Some (lit "Neo4j database not connected. Please check connection settings.");
         data := [];
         count := 0 |}
  | Some run =>
      match run query p with
      | inl records =>
          let data := map record_dict records in
          {| success := true; data := data; count := length data;
             error := None |}
      | inr e =>
          {| success := false;
             error := Some (lit "Query execution failed: " ++ e);
             data := [];
             count := 0 |}
      end
  end.

(** An optional string argument when [if argument:] holds: the argument
    itself, whole; [None] and [''] are falsy. *)
Definition given (argument : option str) : option str :=
  match argument with
  | Some s => if nonempty s then Some s else None
  | None => None
  end.




(** The query and the parameters each method hands to [execute_query]. *)
Definition recommend_courses_request (student_id skill_name : option str)
  : str * params :=
  match given student_id with
  | Some student_id =>
      (courses_for_student_query, [(lit "student_id", AStr student_id)])
  | None =>
      match given skill_name with
      | Some skill_name =>
          (courses_for_skill_query, [(lit "skill_name", AStr skill_name)])
      | None => (all_courses_query, [])
      end
  end.

Definition recommend_internships_request (student_id : str) : str * params :=
  (internships_query, [(lit "student_id", AStr student_id)]).

Definition get_skill_gap_request (student_id internship_id : str)
  : str * params :=
  (skill_gap_query,
   [(lit "student_id", AStr student_id);
    (lit "internship_id", AStr internship_id)]).

Definition get_student_profile_request (student_id : str) : str * params :=
  (student_profile_query, [(lit "student_id", AStr student_id)]).

Definition search_students_request (skill_name major : option str)
           (min_gpa : option num) : str * params :=
  let conditions : list str := [] in
  let params : params := [] in
  let '(conditions, params) :=
    match given skill_name with
    | Some skill_name =>
        (conditions ++ [lit "(s)-[:HAS_SKILL]->(:Skill {name: $skill_name})"],
         params ++ [(lit "skill_name", AStr skill_name)])
    | None => (conditions, params)
    end in
  let '(conditions, params) :=
    match given major with
    | Some major =>
        (conditions ++ [lit "s.major = $major"],
         params ++ [(lit "major", AStr major)])
    | None => (conditions, params)
    end in
  let '(conditions, params) :=
    match min_gpa with
    | Some x =>
        if num_truthy x
        then (conditions ++ [lit "s.gpa >= $min_gpa"],
              params ++ [(lit "min_gpa", ANum x)])
        else (conditions, params)
    | None => (conditions, params)
    end in
  let where_clause :=
    if nonempty conditions then join (lit " AND ") conditions
    else lit "true" in
  (search_query where_clause, params).

Definition run_request (d : driver) (request : str * params) : result :=
  execute_query d (fst request) (Some (snd request)).

Definition recommend_courses (d : driver) (student_id skill_name : option str)
  : result :=
  run_request d (recommend_courses_request student_id skill_name).

Definition recommend_internships (d : driver) (student_id : str) : result :=
  run_request d (recommend_internships_request student_id).

Definition get_skill_gap (d : driver) (student_id internship_id : str)
  : result :=
  run_request d (get_skill_gap_request student_id internship_id).

Definition get_student_profile (d : driver) (student_id : str) : result :=
  run_request d (get_student_profile_request student_id).

Definition search_students (d : driver) (skill_name major : option str)
           (min_gpa : option num) : result :=
  run_request d (search_students_request skill_name major min_gpa).

End Engine.

End Recommender.

Import Orchestrator Recommender.

(** ** Further example inputs *)

Module Inputs.

Definition no_capitals : str := lit "show skill gaps for bob smith for amazon".

Definition data_engineer : str :=
  lit "Show skill gaps for Emma Davis for Google Data Engineer".

Definition average_gpa_no_major : str := lit "Average GPA of all students".

(** A reply that opens with an explanation. *)
Definition explanation_line : str := lit "Here's the query you asked for:".
Definition explained_query : str := lit "MATCH (s:Student) RETURN s.name".
Definition explained_reply : str :=
  explanation_line ++ newline :: explained_query.

(** Two backends: one that cannot be reached, one that explains itself. *)
Definition unreachable_backend : str -> completion :=
  fun _ => Raised (lit "Connection error.").

Definition explaining_backend : str -> completion :=
  fun _ => Content explained_reply.

(** The longer of the two fence tokens the sanitizer removes. *)
Definition fence_cypher : str := lit "```cypher".

(** A student id and a major, as the endpoints pass them on. *)
Definition student_s001 : str := lit "S001".
Definition computer_science : str := lit "Computer Science".

(** A query, a line of explanation, then more text. *)
Definition query_then_note : str :=
  lit "MATCH (s:Student) RETURN s.name" ++ newline
      :: lit "Note: this lists every student" ++ newline
      :: lit "LIMIT 5".

End Inputs.

Import Inputs.

(** * Facts about [str] operations *)

Section Prefix.

Lemma eqb_refl' (c : ascii) : Ascii.eqb c c = true.
Proof. apply Ascii.eqb_refl. Qed.

Lemma startswith_app (p t : str) : startswith p (p ++ t) = true.
Proof. induction p as [|a p IH]; simpl; [reflexivity|]. now rewrite Ascii.eqb_refl. Qed.

Lemma startswith_inv (p s : str) :
  startswith p s = true -> s = p ++ skipn (length p) s.
Proof.
  revert s; induction p as [|a p IH]; intros [|b s]; simpl; try easy.
  intros H. apply andb_true_iff in H as [E H].
  apply Ascii.eqb_eq in E. subst b. f_equal. now apply IH.
Qed.

Lemma startswith_iff (p s : str) :
  startswith p s = true <-> exists t, s = p ++ t.
Proof.
  split.
  - intros H. eexists. now apply startswith_inv.
  - intros [t ->]. apply startswith_app.
Qed.

Lemma startswith_nil_r (p : str) : p <> [] -> startswith p [] = false.
Proof. now destruct p. Qed.

(** A pattern that begins a concatenation is compatible with its first part. *)
Lemma startswith_app_compat (q x y : str) :
  startswith q (x ++ y) = true -> compat x q = true.
Proof.
  unfold compat. revert x; induction q as [|a q IH]; intros x H.
  - destruct x; simpl; now rewrite ?orb_true_r.
  - destruct x as [|b x]; [reflexivity|].
    simpl in *. apply andb_true_iff in H as [E H].
    apply Ascii.eqb_eq in E. subst b. rewrite Ascii.eqb_refl. simpl.
    now apply IH.
Qed.

Lemma contains_app_clash (q x y : str) :
  clash x q = false -> contains q (x ++ y) = contains q y.
Proof.
  induction x as [|a x IH]; [reflexivity|].
  intros H. cbn [clash] in H. apply orb_false_iff in H as [H1 H2].
  change ((a :: x) ++ y) with (a :: x ++ y). cbn [contains].
  rewrite (IH H2).
  destruct (startswith q (a :: x ++ y)) eqn:E; [|reflexivity].
  apply (startswith_app_compat q (a :: x) y) in E. congruence.
Qed.

Lemma contains_startswith (q s : str) :
  startswith q s = true -> contains q s = true.
Proof. intros H. destruct s; simpl; now rewrite H. Qed.

Lemma contains_iff (q s : str) :
  contains q s = true <-> exists a b, s = a ++ q ++ b.
Proof.
  split.
  - induction s as [|c s IH]; simpl.
    + rewrite orb_false_r. intros H. apply startswith_iff in H as [t E].
      exists [], t. exact E.
    + intros H. apply orb_true_iff in H as [H|H].
      * apply startswith_iff in H as [t E]. exists [], t. exact E.
      * destruct (IH H) as (a & b & ->). now exists (c :: a), b.
  - intros (a & b & ->). induction a as [|c a IH].
    + apply contains_startswith. cbn [app]. apply startswith_app.
    + simpl. rewrite IH. apply orb_true_r.
Qed.

Lemma contains_sub (q a s b : str) :
  contains q s = true -> contains q (a ++ s ++ b) = true.
Proof.
  intros H. apply contains_iff in H as (u & v & ->).
  apply contains_iff. exists (a ++ u), (v ++ b).
  now rewrite <- !app_assoc.
Qed.

Lemma contains_sub_false (q a s b : str) :
  contains q (a ++ s ++ b) = false -> contains q s = false.
Proof.
  intros H. destruct (contains q s) eqn:E; [|reflexivity].
  now rewrite (contains_sub q a s b E) in H.
Qed.

Lemma contains_longer (q r s : str) :
  contains q s = false -> contains (q ++ r) s = false.
Proof.
  intros H. destruct (contains (q ++ r) s) eqn:E; [|reflexivity].
  apply contains_iff in E as (a & b & ->).
  rewrite <- H. symmetry. apply contains_iff. exists a, (r ++ b).
  now rewrite <- app_assoc.
Qed.

End Prefix.

Lemma startswith_line (p l rest : str) :
  ~ In newline p ->
  startswith p (l ++ newline :: rest) = startswith p l.
Proof.
  revert l. induction p as [|a o IH]; intros l Hp; [reflexivity|].
  assert (Ha : a <> newline) by (intros ->; apply Hp; now left).
  assert (Ho : ~ In newline o) by (intros H; apply Hp; now right).
  destruct l as [|c l]; cbn [app startswith].
  - apply Ascii.eqb_neq in Ha. now rewrite Ha.
  - now rewrite (IH l Ho).
Qed.

Lemma replace_go_skip (old new : str) (k : nat) (s : str) :
  replace_go old new k s = replace_go old new 0 (skipn k s).
Proof.
  revert k; induction s as [|c s IH]; intros [|k]; try reflexivity.
  cbn [replace_go skipn]. apply IH.
Qed.

Section Replace.
Variables old new : str.
Hypothesis old_nonempty : old <> [].

Lemma replace_nil : replace old new [] = [].
Proof. reflexivity. Qed.

Lemma replace_hit (t : str) :
  replace old new (old ++ t) = new ++ replace old new t.
Proof.
  unfold replace. destruct old as [|a o] eqn:E; [easy|].
  cbn [app replace_go]. change (a :: o ++ t) with ((a :: o) ++ t).
  rewrite startswith_app. f_equal.
  rewrite replace_go_skip. f_equal.
  replace (length (a :: o) - 1) with (length o) by (simpl; lia).
  now rewrite skipn_app, skipn_all, Nat.sub_diag.
Qed.

Lemma replace_miss (c : ascii) (s : str) :
  startswith old (c :: s) = false ->
  replace old new (c :: s) = c :: replace old new s.
Proof. unfold replace. cbn [replace_go]. now intros ->. Qed.

(** The recursion scheme of [replace]. *)
Lemma replace_ind (P : str -> str -> Prop) :
  P [] [] ->
  (forall t, P t (replace old new t) ->
             P (old ++ t) (new ++ replace old new t)) ->
  (forall c s, startswith old (c :: s) = false ->
               P s (replace old new s) ->
               P (c :: s) (c :: replace old new s)) ->
  forall s, P s (replace old new s).
Proof.
  intros Hnil Hhit Hmiss s.
  remember (length s) as n eqn:En.
  revert s En. induction n as [n IH] using lt_wf_ind. intros s En.
  destruct s as [|c s]; [exact Hnil|].
  destruct (startswith old (c :: s)) eqn:E.
  - pose proof (startswith_inv _ _ E) as D.
    rewrite D, replace_hit. apply Hhit.
    apply (IH (length (skipn (length old) (c :: s)))); [|reflexivity].
    subst n. rewrite length_skipn. destruct old; [easy|]. simpl. lia.
  - rewrite (replace_miss _ _ E). apply Hmiss; [exact E|].
    apply (IH (length s)); [subst n; simpl; lia | reflexivity].
Qed.

Lemma replace_absent (s : str) :
  contains old s = false -> replace old new s = s.
Proof.
  induction s as [|c s IH]; [reflexivity|].
  cbn [contains]. intros H. apply orb_false_iff in H as [H1 H2].
  rewrite (replace_miss _ _ H1). f_equal. now apply IH.
Qed.

Lemma replace_nonempty (s : str) :
  new <> [] -> s <> [] -> replace old new s <> [].
Proof.
  intros Hn. apply (replace_ind (fun s r => s <> [] -> r <> [])).
  - easy.
  - intros t _ _. destruct new; [easy|discriminate].
  - discriminate.
Qed.

Lemma replace_chars (s : str) (c : ascii) :
  In c (replace old new s) -> In c s \/ In c new.
Proof.
  apply (replace_ind (fun s r => In c r -> In c s \/ In c new)).
  - easy.
  - intros t IH H. apply in_app_or in H as [H|H]; [now right|].
    destruct (IH H); [left; apply in_or_app; now right | now right].
  - intros a u _ IH [H|H]; [left; now left|].
    destruct (IH H); [left; now right | now right].
Qed.

(** *** Occurrences of another pattern, seen through a character map *)
Section Through.
Variable f : ascii -> ascii.
Variable q : str.
Hypothesis old_tails : tails_clash (map f old) q = false.
Hypothesis new_tails : tails_clash (map f new) q = false.

Lemma startswith_replace_gen (q' : str) :
  tails_clash (map f old) q' = false ->
  tails_clash (map f new) q' = false ->
  forall s, startswith q' (map f (replace old new s))
            = startswith q' (map f s).
Proof.
  induction q' as [|a q' IH]; intros Ho Hn s; [reflexivity|].
  cbn [tails_clash] in Ho, Hn.
  apply orb_false_iff in Ho as [Ho Ho'].
  apply orb_false_iff in Hn as [Hn Hn'].
  specialize (IH Ho' Hn').
  apply (replace_ind
           (fun s r => startswith (a :: q') (map f r)
                       = startswith (a :: q') (map f s))).
  - reflexivity.
  - intros t _. rewrite !map_app.
    destruct (startswith (a :: q') (map f new ++ _)) eqn:E1.
    { apply startswith_app_compat in E1. congruence. }
    destruct (startswith (a :: q') (map f old ++ _)) eqn:E2.
    { apply startswith_app_compat in E2. congruence. }
    reflexivity.
  - intros c u _ _. cbn [map startswith]. now rewrite IH.
Qed.

Lemma startswith_replace (s : str) :
  startswith q (map f (replace old new s)) = startswith q (map f s).
Proof. now apply startswith_replace_gen. Qed.

Hypothesis old_clash : clash (map f old) q = false.
Hypothesis new_clash : clash (map f new) q = false.

Lemma contains_replace (s : str) :
  contains q (map f (replace old new s)) = contains q (map f s).
Proof.
  apply (replace_ind
           (fun s r => contains q (map f r) = contains q (map f s))).
  - reflexivity.
  - intros t IH. rewrite !map_app.
    now rewrite (contains_app_clash _ _ _ new_clash),
      (contains_app_clash _ _ _ old_clash).
  - intros c u Hm IH.
    change (c :: replace old new u) with ([c] ++ replace old new u).
    rewrite <- (replace_miss _ _ Hm) at 1.
    destruct (map f (replace old new (c :: u))) as [|x r] eqn:E.
    + rewrite (replace_miss _ _ Hm) in E. discriminate.
    + pose proof (startswith_replace (c :: u)) as S.
      rewrite E in S. cbn [contains]. rewrite S.
      rewrite (replace_miss _ _ Hm) in E. cbn [map] in E.
      injection E as _ <-. cbn [map]. now rewrite IH.
Qed.
End Through.

Lemma map_id_str (s : str) : map (fun c : ascii => c) s = s.
Proof. apply map_id. Qed.

(** The same without a character map. *)
Lemma startswith_replace_plain (q s : str) :
  tails_clash old q = false -> tails_clash new q = false ->
  startswith q (replace old new s) = startswith q s.
Proof.
  intros Ho Hn.
  pose proof (startswith_replace_gen (fun c => c) q) as H.
  rewrite !map_id_str in H. specialize (H Ho Hn s).
  now rewrite !map_id_str in H.
Qed.

Lemma contains_replace_plain (q s : str) :
  tails_clash old q = false -> tails_clash new q = false ->
  clash old q = false -> clash new q = false ->
  contains q (replace old new s) = contains q s.
Proof.
  intros Ho Hn Co Cn.
  pose proof (contains_replace (fun c => c) q) as H.
  rewrite !map_id_str in H. specialize (H Ho Hn Co Cn s).
  now rewrite !map_id_str in H.
Qed.

(** A replacement that only changes case is invisible after [lower]. *)
Lemma map_replace_same (f : ascii -> ascii) (s : str) :
  map f new = map f old -> map f (replace old new s) = map f s.
Proof.
  intros E.
  apply (replace_ind (fun s r => map f r = map f s)).
  - reflexivity.
  - intros t IH. now rewrite !map_app, IH, E.
  - intros c u _ IH. cbn [map]. now rewrite IH.
Qed.

(** *** After the replacement no occurrence of [old] is left *)
Section Gone.
Hypothesis new_nonempty : new <> [].
Hypothesis self_tails : tails_clash old (tl old) = false.
Hypothesis new_self_tails : tails_clash new (tl old) = false.
Hypothesis new_old_clash : clash new old = false.

Lemma startswith_old_replace (s : str) :
  startswith old (replace old new s) = false.
Proof.
  apply (replace_ind (fun _ r => startswith old r = false)).
  - now apply startswith_nil_r.
  - intros t _.
    destruct (startswith old (new ++ replace old new t)) eqn:E;
      [|reflexivity].
    apply startswith_app_compat in E.
    destruct new as [|b n]; [easy|].
    cbn [clash] in new_old_clash.
    apply orb_false_iff in new_old_clash as [C _]. congruence.
  - intros c u Hm _.
    assert (exists a o, old = a :: o) as (a & o & E)
        by (destruct old; [easy | eauto]).
    assert (To : tails_clash old o = false)
      by (replace o with (tl old) by (now rewrite E); exact self_tails).
    assert (Tn : tails_clash new o = false)
      by (replace o with (tl old) by (now rewrite E);
          exact new_self_tails).
    rewrite E in Hm |- *. cbn [startswith] in *.
    rewrite <- E. now rewrite (startswith_replace_plain o u To Tn).
Qed.

Lemma replace_gone (s : str) : contains old (replace old new s) = false.
Proof.
  apply (replace_ind (fun _ r => contains old r = false)).
  - cbn. now rewrite startswith_nil_r.
  - intros t IH. now rewrite (contains_app_clash _ _ _ new_old_clash).
  - intros c u Hm IH.
    rewrite <- (replace_miss _ _ Hm).
    destruct (replace old new (c :: u)) as [|x r] eqn:E.
    + cbn. now rewrite startswith_nil_r.
    + cbn [contains]. rewrite <- E at 1. rewrite startswith_old_replace.
      rewrite (replace_miss _ _ Hm) in E. injection E as _ <-.
      exact IH.
Qed.
End Gone.

(** *** Replacement works line by line *)
Section Linewise.
Hypothesis old_one_line : ~ In newline old.

Lemma startswith_old_line (l rest : str) :
  startswith old (l ++ newline :: rest) = startswith old l.
Proof. now apply startswith_line. Qed.

Lemma replace_line (l rest : str) :
  replace old new (l ++ newline :: rest)
  = replace old new l ++ newline :: replace old new rest.
Proof.
  apply (replace_ind
           (fun l r => replace old new (l ++ newline :: rest)
                       = r ++ newline :: replace old new rest)).
  - cbn [app]. apply replace_miss.
    rewrite (startswith_old_line [] rest : startswith old (newline :: rest) = _).
    now apply startswith_nil_r.
  - intros t IH. now rewrite <- !app_assoc, replace_hit, IH.
  - intros c u Hm IH. cbn [app]. rewrite replace_miss, IH; [reflexivity|].
    change (c :: u ++ newline :: rest) with ((c :: u) ++ newline :: rest).
    now rewrite startswith_old_line.
Qed.

Lemma replace_join (ls : list str) :
  replace old new (join [newline] ls)
  = join [newline] (map (replace old new) ls).
Proof.
  induction ls as [|l ls IH]; [reflexivity|].
  destruct ls as [|l' ls]; [reflexivity|].
  change (join [newline] (l :: l' :: ls))
    with (l ++ newline :: join [newline] (l' :: ls)).
  rewrite replace_line, IH. reflexivity.
Qed.
End Linewise.

End Replace.

(** ** Removing the code fences leaves none behind *)
Section Fence.

Lemma fence_nonempty : fence <> [].
Proof. discriminate. Qed.

Lemma startswith_cons (a c : ascii) (p s : str) :
  startswith (a :: p) (c :: s) = Ascii.eqb a c && startswith p s.
Proof. reflexivity. Qed.

Lemma unfence_head (s : str) :
  startswith [tick] (replace fence [] s) = true -> startswith [tick] s = true.
Proof.
  apply (replace_ind fence [] fence_nonempty
           (fun s r => startswith [tick] r = true
                       -> startswith [tick] s = true)).
  - easy.
  - reflexivity.
  - intros c u _ _ H. exact H.
Qed.

Lemma unfence_head2 (s : str) :
  startswith [tick; tick] (replace fence [] s) = true -> startswith [tick; tick] s = true.
Proof.
  apply (replace_ind fence [] fence_nonempty
           (fun s r => startswith [tick; tick] r = true
                       -> startswith [tick; tick] s = true)).
  - easy.
  - reflexivity.
  - intros c u _ _ H. rewrite startswith_cons in *.
    apply andb_true_iff in H as [H1 H2]. rewrite H1. cbn [andb].
    exact (unfence_head u H2).
Qed.

Lemma unfence_head3 (s : str) : startswith fence (replace fence [] s) = false.
Proof.
  apply (replace_ind fence [] fence_nonempty
           (fun _ r => startswith fence r = false)).
  - reflexivity.
  - intros t IH. exact IH.
  - intros c u Hm _.
    destruct (startswith fence (c :: replace fence [] u)) eqn:E;
      [|reflexivity].
    unfold fence in Hm, E. rewrite startswith_cons in Hm, E.
    apply andb_true_iff in E as [E1 E2].
    rewrite E1, (unfence_head2 u E2) in Hm. discriminate Hm.
Qed.

Lemma unfence_clean (s : str) : contains fence (replace fence [] s) = false.
Proof.
  apply (replace_ind fence [] fence_nonempty
           (fun _ r => contains fence r = false)).
  - reflexivity.
  - intros t IH. exact IH.
  - intros c u Hm IH.
    pose proof (unfence_head3 (c :: u)) as H3.
    rewrite (replace_miss _ _ _ _ Hm) in H3.
    cbn [contains]. now rewrite H3, IH.
Qed.
End Fence.

Section Strip.

Lemma drop_while_suffix (p : ascii -> bool) (s : str) :
  exists u, s = u ++ drop_while p s.
Proof.
  induction s as [|c s [u IH]]; [now exists []|].
  cbn [drop_while]. destruct (p c).
  - exists (c :: u). cbn [app]. now f_equal.
  - now exists [].
Qed.

Lemma drop_while_starts_ok (s : str) :
  starts_ok (drop_while is_space s) = true.
Proof.
  induction s as [|c s IH]; [reflexivity|].
  cbn [drop_while]. destruct (is_space c) eqn:E; [exact IH|].
  cbn [starts_ok]. now rewrite E.
Qed.

Lemma drop_while_fixed (p : ascii -> bool) (s : str) :
  match s with [] => true | c :: _ => negb (p c) end = true ->
  drop_while p s = s.
Proof.
  destruct s as [|c s]; [reflexivity|]. cbn [drop_while].
  now destruct (p c).
Qed.

Lemma lstrip_suffix (s : str) : exists u, s = u ++ lstrip s.
Proof. apply drop_while_suffix. Qed.

Lemma rev_drop_prefix (p : ascii -> bool) (s : str) :
  exists v, s = rev (drop_while p (rev s)) ++ v.
Proof.
  destruct (drop_while_suffix p (rev s)) as [u E].
  exists (rev u). rewrite <- rev_app_distr, <- E. now rewrite rev_involutive.
Qed.

Lemma rstrip_prefix (s : str) : exists v, s = rstrip s ++ v.
Proof. apply rev_drop_prefix. Qed.

Lemma rstrip_chars_prefix (chars s : str) :
  exists v, s = rstrip_chars chars s ++ v.
Proof. apply rev_drop_prefix. Qed.

Lemma rstrip_ends_ok (s : str) : ends_ok (rstrip s) = true.
Proof.
  unfold ends_ok, rstrip. rewrite rev_involutive.
  apply drop_while_starts_ok.
Qed.

Lemma starts_ok_prefix (c t : str) :
  starts_ok (c ++ t) = true -> starts_ok c = true.
Proof. now destruct c. Qed.

Lemma starts_ok_app (a b : str) :
  a <> [] -> starts_ok (a ++ b) = starts_ok a.
Proof. now destruct a. Qed.

Lemma ends_ok_app (a b : str) :
  b <> [] -> ends_ok (a ++ b) = ends_ok b.
Proof.
  intros H. unfold ends_ok. rewrite rev_app_distr.
  apply starts_ok_app. intros E. apply H.
  apply (f_equal (@rev ascii)) in E. now rewrite rev_involutive in E.
Qed.

Lemma lstrip_fixed (s : str) : starts_ok s = true -> lstrip s = s.
Proof. apply drop_while_fixed. Qed.

Lemma rstrip_fixed (s : str) : ends_ok s = true -> rstrip s = s.
Proof.
  intros H. unfold rstrip.
  rewrite (drop_while_fixed is_space (rev s) H). apply rev_involutive.
Qed.

Lemma strip_fixed (s : str) :
  starts_ok s = true -> ends_ok s = true -> strip s = s.
Proof.
  intros H1 H2. unfold strip. now rewrite (lstrip_fixed s H1), rstrip_fixed.
Qed.

Lemma strip_sub (s : str) : exists u v, s = u ++ strip s ++ v.
Proof.
  destruct (lstrip_suffix s) as [u E].
  destruct (rstrip_prefix (lstrip s)) as [v F].
  exists u, v. unfold strip. now rewrite <- F.
Qed.

Lemma strip_starts_ok (s : str) : starts_ok (strip s) = true.
Proof.
  destruct (rstrip_prefix (lstrip s)) as [v F].
  apply (starts_ok_prefix _ v). unfold strip. rewrite <- F.
  apply drop_while_starts_ok.
Qed.

Lemma strip_ends_ok (s : str) : ends_ok (strip s) = true.
Proof. apply rstrip_ends_ok. Qed.

Lemma eqb_sym (a b : ascii) : Ascii.eqb a b = Ascii.eqb b a.
Proof.
  destruct (Ascii.eqb a b) eqn:E.
  - apply Ascii.eqb_eq in E. subst. now rewrite Ascii.eqb_refl.
  - destruct (Ascii.eqb b a) eqn:F; [|reflexivity].
    apply Ascii.eqb_eq in F. subst. now rewrite Ascii.eqb_refl in E.
Qed.

Lemma rstrip_chars_fixed (c : ascii) (s : str) :
  endswith [c] s = false -> rstrip_chars [c] s = s.
Proof.
  unfold endswith, rstrip_chars. intros H.
  rewrite drop_while_fixed; [apply rev_involutive|].
  destruct (rev s) as [|x r]; [reflexivity|].
  cbn in H |- *. rewrite andb_true_r in H. rewrite orb_false_r.
  now rewrite eqb_sym, H.
Qed.


End Strip.

Section Lines.

Lemma neq_newline (c : ascii) (l : str) :
  ~ In newline (c :: l) -> Ascii.eqb c newline = false /\ ~ In newline l.
Proof.
  intros H. split.
  - apply Ascii.eqb_neq. intros ->. apply H. now left.
  - intros I. apply H. now right.
Qed.

Lemma split_nonempty (s : str) : split newline s <> [].
Proof.
  destruct s as [|c s]; [discriminate|]. cbn [split].
  destruct (Ascii.eqb c newline); [discriminate|].
  destruct (split newline s); discriminate.
Qed.

Lemma split_one_line (l : str) : ~ In newline l -> split newline l = [l].
Proof.
  induction l as [|c l IH]; [reflexivity|].
  intros H. apply neq_newline in H as [E H].
  cbn [split]. now rewrite E, (IH H).
Qed.

Lemma split_line (l r : str) :
  ~ In newline l -> split newline (l ++ newline :: r) = l :: split newline r.
Proof.
  induction l as [|c l IH]; intros H.
  - cbn [app split]. now rewrite Ascii.eqb_refl.
  - apply neq_newline in H as [E H].
    cbn [app split]. now rewrite E, (IH H).
Qed.

Lemma join_cons (l l' : str) (ls : list str) :
  join [newline] (l :: l' :: ls) = l ++ newline :: join [newline] (l' :: ls).
Proof. reflexivity. Qed.

Lemma split_join (ls : list str) :
  ls <> [] -> Forall (fun l => ~ In newline l) ls ->
  split newline (join [newline] ls) = ls.
Proof.
  induction ls as [|l ls IH]; [easy|]. intros _ H.
  inversion H as [|? ? Hl Hls]; subst.
  destruct ls as [|l' ls].
  - now apply split_one_line.
  - rewrite join_cons, (split_line _ _ Hl). f_equal.
    now apply IH.
Qed.

(** Every line of [split] is a newline-free piece of the text. *)
Lemma split_shape (s : str) :
  exists l0 ls,
    split newline s = l0 :: ls /\ ~ In newline l0 /\ (exists b, s = l0 ++ b)
    /\ Forall (piece_of s) ls.
Proof.
  induction s as [|c s (l0 & ls & E & N & [b B] & F)].
  - exists [], []. repeat split; [easy | now exists [] | constructor].
  - cbn [split]. destruct (Ascii.eqb c newline) eqn:C.
    + exists [], (split newline s). repeat split; [easy | now exists (c :: s) |].
      rewrite E. constructor.
      * split; [exact N|]. exists [c], b. cbn [app]. now f_equal.
      * eapply Forall_impl; [|exact F].
        intros l [Nl (a & b' & ->)]. split; [exact Nl|].
        now exists (c :: a), b'.
    + rewrite E. exists (c :: l0), ls. repeat split.
      * intros [->|I]; [now rewrite Ascii.eqb_refl in C | now apply N].
      * exists b. cbn [app]. now f_equal.
      * eapply Forall_impl; [|exact F].
        intros l [Nl (a & b' & ->)]. split; [exact Nl|].
        now exists (c :: a), b'.
Qed.

Lemma split_pieces (s : str) : Forall (piece_of s) (split newline s).
Proof.
  destruct (split_shape s) as (l0 & ls & -> & N & [b B] & F).
  constructor; [|exact F]. split; [exact N|]. now exists [], b.
Qed.

Lemma contains_nil_r (q : str) : q <> [] -> contains q [] = false.
Proof. intros H. cbn. now rewrite startswith_nil_r. Qed.

Lemma contains_line (q l rest : str) :
  q <> [] -> ~ In newline q ->
  contains q (l ++ newline :: rest) = contains q l || contains q rest.
Proof.
  intros Hq Hn. induction l as [|c l IH].
  - rewrite (contains_nil_r q Hq). cbn [app contains orb].
    rewrite (startswith_line q [] rest Hn : startswith q (newline :: rest) = _).
    now rewrite startswith_nil_r.
  - cbn [app contains].
    rewrite (startswith_line q (c :: l) rest Hn
             : startswith q (c :: l ++ newline :: rest) = _).
    now rewrite IH, orb_assoc.
Qed.

End Lines.

Section Tidy.

Lemma has_marker_sub (a s b : str) :
  has_marker (a ++ s ++ b) = false -> has_marker s = false.
Proof.
  unfold has_marker. intros H.
  destruct (existsb _ markers) eqn:E in |- *; [|reflexivity].
  apply existsb_exists in E as (m & Hm & C).
  rewrite <- H. symmetry. apply existsb_exists. exists m. split; [exact Hm|].
  unfold lower in *. rewrite !map_app. now apply contains_sub.
Qed.

Lemma tidy_prefix (l c t : str) :
  tidy l -> l = c ++ t -> c <> [] -> ends_ok c = true -> tidy c.
Proof.
  intros (_ & S & _ & N & M & C & F) -> Hc He. repeat split.
  - exact Hc.
  - now apply (starts_ok_prefix c t).
  - exact He.
  - intros I. apply N, in_or_app. now left.
  - apply (has_marker_sub [] c t). exact M.
  - destruct (startswith (lit "//") c) eqn:E; [|reflexivity].
    apply startswith_iff in E as [u ->].
    rewrite <- app_assoc, startswith_app in C. discriminate C.
  - apply (contains_sub_false fence [] c t). exact F.
Qed.

Lemma tidy_strip (raw : str) :
  ~ In newline raw -> contains fence raw = false ->
  has_marker (strip raw) = false ->
  nonempty (strip raw) && negb (startswith (lit "//") (strip raw)) = true ->
  tidy (strip raw).
Proof.
  intros N F M H. apply andb_true_iff in H as [H1 H2].
  destruct (strip_sub raw) as (u & v & E).
  repeat split.
  - now destruct (strip raw).
  - apply strip_starts_ok.
  - apply strip_ends_ok.
  - intros I. apply N. rewrite E. apply in_or_app. right.
    apply in_or_app. now left.
  - exact M.
  - now apply negb_true_iff.
  - apply (contains_sub_false fence u (strip raw) v). now rewrite <- E.
Qed.

Lemma collect_lines_tidy (lines acc : list str) :
  Forall tidy acc ->
  Forall (fun raw => ~ In newline raw /\ contains fence raw = false) lines ->
  Forall tidy (collect_lines lines acc).
Proof.
  revert acc. induction lines as [|raw rest IH]; intros acc Ha Hl;
    [exact Ha|].
  inversion Hl as [|? ? [N F] Hrest]; subst.
  cbn [collect_lines].
  destruct (has_marker (strip raw)) eqn:M; [exact Ha|].
  destruct (negb (nonempty acc) && negb (nonempty (strip raw)));
    [now apply IH|].
  destruct (nonempty (strip raw)
            && negb (startswith (lit "//") (strip raw))) eqn:K;
    [|now apply IH].
  apply IH; [|exact Hrest].
  apply Forall_app. split; [exact Ha|].
  constructor; [|constructor]. now apply tidy_strip.
Qed.

Lemma collect_lines_fixed (ls acc : list str) :
  Forall tidy ls -> collect_lines ls acc = acc ++ ls.
Proof.
  revert acc. induction ls as [|l ls IH]; intros acc H.
  - now rewrite app_nil_r.
  - inversion H as [|? ? (Hne & S & E & N & M & C & F) Hls]; subst.
    cbn [collect_lines]. rewrite (strip_fixed l S E), M, C.
    destruct l as [|c l]; [easy|]. cbn [nonempty negb andb].
    rewrite andb_false_r. rewrite (IH _ Hls).
    now rewrite <- app_assoc.
Qed.

Lemma join_nonempty (ls : list str) :
  ls <> [] -> Forall tidy ls -> join [newline] ls <> [].
Proof.
  destruct ls as [|l ls]; [easy|]. intros _ H.
  inversion H as [|? ? (Hne & _) _]; subst.
  destruct ls; [exact Hne|]. rewrite join_cons.
  destruct l; [easy|discriminate].
Qed.

Lemma join_starts_ok (ls : list str) :
  Forall tidy ls -> starts_ok (join [newline] ls) = true.
Proof.
  destruct ls as [|l ls]; [reflexivity|]. intros H.
  inversion H as [|? ? (Hne & S & _) _]; subst.
  destruct ls; [exact S|]. rewrite join_cons.
  now rewrite starts_ok_app.
Qed.

Lemma join_ends_ok (ls : list str) :
  Forall tidy ls -> ends_ok (join [newline] ls) = true.
Proof.
  induction ls as [|l ls IH]; [reflexivity|]. intros H.
  inversion H as [|? ? (Hne & _ & E & _) Hls]; subst.
  destruct ls as [|l' ls]; [exact E|]. rewrite join_cons.
  rewrite ends_ok_app by discriminate.
  change (newline :: join [newline] (l' :: ls)) with ([newline] ++ join [newline] (l' :: ls)).
  rewrite ends_ok_app; [now apply IH|].
  now apply join_nonempty.
Qed.

Lemma join_fence_free (ls : list str) :
  Forall tidy ls -> contains fence (join [newline] ls) = false.
Proof.
  induction ls as [|l ls IH]; [reflexivity|]. intros H.
  inversion H as [|? ? (_ & _ & _ & _ & _ & _ & F) Hls]; subst.
  destruct ls as [|l' ls]; [exact F|]. rewrite join_cons.
  rewrite contains_line, F, (IH Hls); [reflexivity|discriminate|].
  cbn. intros [H0|[H0|[H0|[]]]]; discriminate H0.
Qed.

Lemma join_lines_one_line (ls : list str) :
  Forall tidy ls -> Forall (fun l => ~ In newline l) ls.
Proof.
  apply Forall_impl. now intros l (_ & _ & _ & N & _).
Qed.

(** A prefix of tidy lines that does not end in white space is again a
    sequence of tidy lines. *)
Lemma join_prefix (ls : list str) :
  Forall tidy ls ->
  forall c t, join [newline] ls = c ++ t -> ends_ok c = true ->
  exists ls', c = join [newline] ls' /\ Forall tidy ls'.
Proof.
  induction ls as [|l ls IH]; intros H c t E Hc.
  - symmetry in E. apply app_eq_nil in E as [-> _]. now exists [].
  - inversion H as [|? ? Hl Hls]; subst.
    destruct ls as [|l' ls].
    + destruct c as [|x c]; [now exists []|].
      exists [x :: c]. split; [reflexivity|].
      constructor; [|constructor].
      now apply (tidy_prefix l (x :: c) t).
    + rewrite join_cons in E.
      apply app_eq_app in E as [m [[E1 E2]|[E1 E2]]].
      * (* the prefix ends inside the first line *)
        destruct c as [|x c]; [now exists []|].
        exists [x :: c]. split; [reflexivity|].
        constructor; [|constructor].
        now apply (tidy_prefix l (x :: c) m).
      * destruct m as [|y m].
        { rewrite app_nil_r in E1. subst c. exists [l].
          split; [reflexivity|]. now constructor. }
        cbn [app] in E2. injection E2 as <- E2.
        destruct m as [|z m].
        { subst c. unfold ends_ok in Hc. rewrite rev_app_distr in Hc.
          discriminate Hc. }
        assert (Hm : ends_ok (z :: m) = true).
        { subst c. rewrite ends_ok_app in Hc by discriminate.
          change (newline :: z :: m) with ([newline] ++ z :: m) in Hc.
          now rewrite ends_ok_app in Hc by discriminate. }
        destruct (IH Hls (z :: m) t E2 Hm) as (ls' & J & T).
        destruct ls' as [|k ls']; [discriminate J|].
        exists (l :: k :: ls'). split; [|now constructor].
        rewrite join_cons, <- J. exact E1.
Qed.

End Tidy.

Lemma existsb_ext_in {A : Type} (f g : A -> bool) (l : list A) :
  (forall x, In x l -> f x = g x) -> existsb f l = existsb g l.
Proof.
  induction l as [|a l IH]; intros H; [reflexivity|].
  cbn [existsb]. rewrite (H a (or_introl eq_refl)). f_equal.
  apply IH. intros x Hx. apply H. now right.
Qed.

Section Independent.
Variables old new : str.
Hypothesis old_nonempty : old <> [].

Lemma independent_elim (q : str) :
  independent old new q = true ->
  tails_clash old q = false /\ tails_clash new q = false
  /\ clash old q = false /\ clash new q = false.
Proof.
  unfold independent. intros H.
  repeat (apply andb_true_iff in H as [H ?]).
  repeat split; now apply negb_true_iff.
Qed.

Lemma contains_replace_independent (q s : str) :
  independent old new q = true ->
  contains q (replace old new s) = contains q s.
Proof.
  intros H. apply independent_elim in H as (A & B & C & D).
  now apply contains_replace_plain.
Qed.

Lemma startswith_replace_independent (q s : str) :
  independent old new q = true ->
  startswith q (replace old new s) = startswith q s.
Proof.
  intros H. apply independent_elim in H as (A & B & C & D).
  now apply startswith_replace_plain.
Qed.

Lemma replace_gone_border_free (s : str) :
  new <> [] -> border_free old new = true ->
  contains old (replace old new s) = false.
Proof.
  unfold border_free. intros Hn H.
  repeat (apply andb_true_iff in H as [H ?]).
  apply replace_gone; try assumption; now apply negb_true_iff.
Qed.

Lemma has_marker_replace_independent (s : str) :
  forallb (independent (lower old) (lower new)) markers = true ->
  has_marker (replace old new s) = has_marker s.
Proof.
  intros H. unfold has_marker.
  assert (K : forall m, In m markers ->
                        contains m (lower (replace old new s))
                        = contains m (lower s)).
  { intros m Hm. rewrite forallb_forall in H.
    specialize (H m Hm). unfold independent in H.
    repeat (apply andb_true_iff in H as [H ?]).
    unfold lower in *.
    apply contains_replace; try assumption; now apply negb_true_iff. }
  now apply existsb_ext_in.
Qed.

Lemma has_marker_replace_same_case (s : str) :
  lower new = lower old ->
  has_marker (replace old new s) = has_marker s.
Proof.
  intros E. unfold has_marker, lower in *.
  now rewrite (map_replace_same old new old_nonempty lower_char s E).
Qed.

End Independent.

Section KeepsTidy.
Variables old new : str.
Hypothesis old_nonempty : old <> [].
Hypothesis new_nonempty : new <> [].
Hypothesis new_starts : starts_ok new = true.
Hypothesis new_ends : ends_ok new = true.
Hypothesis old_line : ~ In newline old.
Hypothesis new_line : ~ In newline new.
Hypothesis keeps_marker :
  forall l, has_marker (replace old new l) = has_marker l.
Hypothesis keeps_comment :
  forall l, startswith (lit "//") (replace old new l)
            = startswith (lit "//") l.
Hypothesis keeps_fence :
  forall l, contains fence (replace old new l) = contains fence l.

Lemma replace_starts_ok (l : str) :
  starts_ok l = true -> starts_ok (replace old new l) = true.
Proof.
  apply (replace_ind old new old_nonempty
           (fun s r => starts_ok s = true -> starts_ok r = true)).
  - easy.
  - intros t _ _. now rewrite starts_ok_app.
  - intros c u _ _ H. exact H.
Qed.

Lemma replace_ends_ok (l : str) :
  ends_ok l = true -> ends_ok (replace old new l) = true.
Proof.
  apply (replace_ind old new old_nonempty
           (fun s r => ends_ok s = true -> ends_ok r = true)).
  - easy.
  - intros t IH H. destruct t as [|x t].
    + now rewrite replace_nil, app_nil_r.
    + rewrite ends_ok_app in H by discriminate.
      rewrite ends_ok_app; [now apply IH|].
      now apply replace_nonempty.
  - intros c u _ IH H. destruct u as [|x u].
    + now rewrite replace_nil.
    + change (c :: x :: u) with ([c] ++ x :: u) in H.
      rewrite ends_ok_app in H by discriminate.
      change (c :: replace old new (x :: u))
        with ([c] ++ replace old new (x :: u)).
      rewrite ends_ok_app; [now apply IH|].
      now apply replace_nonempty.
Qed.

Lemma replace_tidy (l : str) : tidy l -> tidy (replace old new l).
Proof.
  intros (Hne & S & E & N & M & C & F). repeat split.
  - now apply replace_nonempty.
  - now apply replace_starts_ok.
  - now apply replace_ends_ok.
  - intros I. apply (replace_chars old new old_nonempty) in I as [I|I];
      [now apply N | now apply new_line].
  - now rewrite keeps_marker.
  - now rewrite keeps_comment.
  - now rewrite keeps_fence.
Qed.

Lemma replace_tidy_lines (ls : list str) :
  Forall tidy ls ->
  exists ls', replace old new (join [newline] ls) = join [newline] ls'
              /\ Forall tidy ls'.
Proof.
  intros H. exists (map (replace old new) ls). split.
  - now apply replace_join.
  - apply Forall_map. eapply Forall_impl; [|exact H].
    intros l. apply replace_tidy.
Qed.

End KeepsTidy.

(** ** The two rules of the scoping fix *)
Section Rules.

Ltac by_computation := vm_compute; reflexivity.
Ltac not_in_literal :=
  let H := fresh in
  intros H; vm_compute in H;
  repeat (destruct H as [H|H]; [discriminate H|]); exact H.

Lemma avg_gap_nonempty : order_by_avg_gap <> [].
Proof. discriminate. Qed.
Lemma skill_gap_filled_nonempty : order_by_skill_gap_filled <> [].
Proof. discriminate. Qed.
Lemma match_percent_nonempty : order_by_match_percent <> [].
Proof. discriminate. Qed.
Lemma Match_Percent_nonempty : order_by_Match_Percent <> [].
Proof. discriminate. Qed.

Lemma avg_gap_one_line : ~ In newline order_by_avg_gap.
Proof. not_in_literal. Qed.
Lemma skill_gap_filled_one_line : ~ In newline order_by_skill_gap_filled.
Proof. not_in_literal. Qed.
Lemma match_percent_one_line : ~ In newline order_by_match_percent.
Proof. not_in_literal. Qed.
Lemma Match_Percent_one_line : ~ In newline order_by_Match_Percent.
Proof. not_in_literal. Qed.

(** What the first rule cannot create or destroy. *)
Lemma avg_gap_rule_independent :
  forallb (independent order_by_avg_gap order_by_skill_gap_filled)
          [ order_by_match_percent; as_match_percent; fence; lit "//" ]
  = true.
Proof. by_computation. Qed.

Lemma avg_gap_rule_markers :
  forallb (independent (lower order_by_avg_gap)
                       (lower order_by_skill_gap_filled)) markers = true.
Proof. by_computation. Qed.

Lemma avg_gap_rule_border_free :
  border_free order_by_avg_gap order_by_skill_gap_filled = true.
Proof. by_computation. Qed.

(** What the second rule cannot create or destroy. *)
Lemma match_percent_rule_independent :
  forallb (independent order_by_match_percent order_by_Match_Percent)
          [ order_by_avg_gap; as_skill_gap_filled; fence; lit "//" ]
  = true.
Proof. by_computation. Qed.

Lemma match_percent_rule_same_case :
  lower order_by_Match_Percent = lower order_by_match_percent.
Proof. by_computation. Qed.

Lemma match_percent_rule_border_free :
  border_free order_by_match_percent order_by_Match_Percent = true.
Proof. by_computation. Qed.

End Rules.

(** * Facts about the sanitizer *)

Section ScopingFix.

Lemma forallb_nth4 {A} (f : A -> bool) (a b c d : A) :
  forallb f [a; b; c; d] = true ->
  f a = true /\ f b = true /\ f c = true /\ f d = true.
Proof.
  cbn [forallb]. rewrite andb_true_r. intros H.
  repeat (apply andb_true_iff in H as [? H]). now repeat split.
Qed.

(** The first rule does not touch the second rule's pattern and alias. *)
Lemma avg_gap_rule_keeps_pairing (s : str) :
  match_percent_pairing
    (replace order_by_avg_gap order_by_skill_gap_filled s)
  = match_percent_pairing s.
Proof.
  destruct (forallb_nth4 _ _ _ _ _ avg_gap_rule_independent)
    as (A & B & _ & _).
  unfold match_percent_pairing.
  now rewrite !(contains_replace_independent _ _ avg_gap_nonempty) by assumption.
Qed.

Lemma match_percent_rule_keeps_pairing (s : str) :
  avg_gap_pairing
    (replace order_by_match_percent order_by_Match_Percent s)
  = avg_gap_pairing s.
Proof.
  destruct (forallb_nth4 _ _ _ _ _ match_percent_rule_independent)
    as (A & B & _ & _).
  unfold avg_gap_pairing.
  now rewrite !(contains_replace_independent _ _ match_percent_nonempty)
    by assumption.
Qed.

Lemma match_percent_rule_keeps_avg_gap (s : str) :
  contains order_by_avg_gap
           (replace order_by_match_percent order_by_Match_Percent s)
  = contains order_by_avg_gap s.
Proof.
  destruct (forallb_nth4 _ _ _ _ _ match_percent_rule_independent)
    as (A & _).
  now apply contains_replace_independent; [apply match_percent_nonempty|].
Qed.

Lemma avg_gap_gone (s : str) :
  contains order_by_avg_gap
           (replace order_by_avg_gap order_by_skill_gap_filled s) = false.
Proof.
  apply replace_gone_border_free.
  - apply avg_gap_nonempty.
  - apply skill_gap_filled_nonempty.
  - apply avg_gap_rule_border_free.
Qed.

Lemma match_percent_gone (s : str) :
  contains order_by_match_percent
           (replace order_by_match_percent order_by_Match_Percent s)
  = false.
Proof.
  apply replace_gone_border_free.
  - apply match_percent_nonempty.
  - apply Match_Percent_nonempty.
  - apply match_percent_rule_border_free.
Qed.

Lemma fix_avg_gap_unfold (c : str) :
  fix_avg_gap c
  = if avg_gap_pairing c
    then replace order_by_avg_gap order_by_skill_gap_filled c else c.
Proof. reflexivity. Qed.

Lemma fix_match_percent_unfold (c : str) :
  fix_match_percent c
  = if match_percent_pairing c
    then replace order_by_match_percent order_by_Match_Percent c else c.
Proof. reflexivity. Qed.

(** Where the second rule looks, the first has changed nothing. *)
Lemma pairing_after_fix_avg_gap (c : str) :
  match_percent_pairing (fix_avg_gap c) = match_percent_pairing c.
Proof.
  rewrite fix_avg_gap_unfold. destruct (avg_gap_pairing c); [|reflexivity].
  apply avg_gap_rule_keeps_pairing.
Qed.

Lemma avg_gap_pairing_after_fix (c : str) :
  avg_gap_pairing (_fix_cypher_scoping c) = false.
Proof.
  unfold _fix_cypher_scoping.
  assert (F : avg_gap_pairing (fix_avg_gap c) = false).
  { rewrite fix_avg_gap_unfold. destruct (avg_gap_pairing c) eqn:E;
      [|exact E].
    unfold avg_gap_pairing. now rewrite avg_gap_gone. }
  rewrite (fix_match_percent_unfold (fix_avg_gap c)).
  destruct (match_percent_pairing (fix_avg_gap c)); [|exact F].
  now rewrite match_percent_rule_keeps_pairing.
Qed.

Lemma match_percent_pairing_after_fix (c : str) :
  match_percent_pairing (_fix_cypher_scoping c) = false.
Proof.
  unfold _fix_cypher_scoping.
  rewrite (fix_match_percent_unfold (fix_avg_gap c)).
  destruct (match_percent_pairing (fix_avg_gap c)) eqn:E; [|exact E].
  unfold match_percent_pairing. now rewrite match_percent_gone.
Qed.

Lemma fix_without_pairing (c : str) :
  avg_gap_pairing c = false -> match_percent_pairing c = false ->
  _fix_cypher_scoping c = c.
Proof.
  intros H1 H2. unfold _fix_cypher_scoping.
  rewrite (fix_avg_gap_unfold c), H1.
  now rewrite fix_match_percent_unfold, H2.
Qed.

Lemma fix_cypher_scoping_idempotent (c : str) :
  _fix_cypher_scoping (_fix_cypher_scoping c) = _fix_cypher_scoping c.
Proof.
  apply fix_without_pairing.
  - apply avg_gap_pairing_after_fix.
  - apply match_percent_pairing_after_fix.
Qed.


Lemma avg_gap_rule_tidy (ls : list str) :
  Forall tidy ls ->
  exists ls', fix_avg_gap (join [newline] ls) = join [newline] ls'
              /\ Forall tidy ls'.
Proof.
  intros H. rewrite fix_avg_gap_unfold.
  destruct (avg_gap_pairing _); [|now exists ls].
  destruct (forallb_nth4 _ _ _ _ _ avg_gap_rule_independent)
    as (_ & _ & F & C).
  apply (replace_tidy_lines
           order_by_avg_gap order_by_skill_gap_filled
           avg_gap_nonempty skill_gap_filled_nonempty
           eq_refl eq_refl avg_gap_one_line skill_gap_filled_one_line);
    [ intros l | intros l | intros l | exact H ].
  - apply has_marker_replace_independent;
      [apply avg_gap_nonempty | apply avg_gap_rule_markers].
  - now apply startswith_replace_independent;
      [apply avg_gap_nonempty|].
  - now apply contains_replace_independent;
      [apply avg_gap_nonempty|].
Qed.

Lemma match_percent_rule_tidy (ls : list str) :
  Forall tidy ls ->
  exists ls', fix_match_percent (join [newline] ls) = join [newline] ls'
              /\ Forall tidy ls'.
Proof.
  intros H. rewrite fix_match_percent_unfold.
  destruct (match_percent_pairing _); [|now exists ls].
  destruct (forallb_nth4 _ _ _ _ _ match_percent_rule_independent)
    as (_ & _ & F & C).
  apply (replace_tidy_lines
           order_by_match_percent order_by_Match_Percent
           match_percent_nonempty Match_Percent_nonempty
           eq_refl eq_refl match_percent_one_line Match_Percent_one_line);
    [ intros l | intros l | intros l | exact H ].
  - apply has_marker_replace_same_case;
      [apply match_percent_nonempty | apply match_percent_rule_same_case].
  - now apply startswith_replace_independent;
      [apply match_percent_nonempty|].
  - now apply contains_replace_independent;
      [apply match_percent_nonempty|].
Qed.

Lemma fix_cypher_scoping_tidy (ls : list str) :
  Forall tidy ls ->
  exists ls', _fix_cypher_scoping (join [newline] ls) = join [newline] ls'
              /\ Forall tidy ls'.
Proof.
  intros H. unfold _fix_cypher_scoping.
  destruct (avg_gap_rule_tidy ls H) as (ls1 & -> & H1).
  now apply match_percent_rule_tidy.
Qed.

End ScopingFix.

Section Clean.

Lemma clean_unfold (response : str) :
  _clean_cypher_response response
  = _fix_cypher_scoping (before_fix response).
Proof. reflexivity. Qed.

(** Stripping the terminator off tidy lines leaves tidy lines. *)
Lemma trim_terminator_tidy (ls : list str) :
  Forall tidy ls ->
  exists ls',
    strip (rstrip_chars (lit ";") (strip (join [newline] ls)))
    = join [newline] ls' /\ Forall tidy ls'.
Proof.
  intros H.
  rewrite (strip_fixed _ (join_starts_ok ls H) (join_ends_ok ls H)).
  set (y := join [newline] ls).
  destruct (rstrip_chars_prefix (lit ";") y) as [v V].
  set (x := rstrip_chars (lit ";") y) in *.
  assert (Sx : starts_ok x = true).
  { apply (starts_ok_prefix x v). rewrite <- V. now apply join_starts_ok. }
  unfold strip. rewrite (lstrip_fixed x Sx).
  destruct (rstrip_prefix x) as [w W].
  apply (join_prefix ls H (rstrip x) (w ++ v)).
  - fold y. rewrite app_assoc, <- W. exact V.
  - apply rstrip_ends_ok.
Qed.

Lemma before_fix_tidy (response : str) :
  exists ls, before_fix response = join [newline] ls /\ Forall tidy ls.
Proof.
  unfold before_fix. apply trim_terminator_tidy.
  apply collect_lines_tidy; [constructor|].
  set (text := replace (lit "```") [] _).
  assert (F : contains fence (strip text) = false).
  { destruct (strip_sub text) as (u & v & E).
    apply (contains_sub_false fence u (strip text) v).
    rewrite <- E. apply unfence_clean. }
  eapply Forall_impl; [|apply split_pieces].
  intros l [N (a & b & E)]. split; [exact N|].
  apply (contains_sub_false fence a l b). now rewrite <- E.
Qed.

Lemma clean_tidy (response : str) :
  exists ls, _clean_cypher_response response = join [newline] ls
             /\ Forall tidy ls.
Proof.
  rewrite clean_unfold.
  destruct (before_fix_tidy response) as (ls & -> & H).
  now apply fix_cypher_scoping_tidy.
Qed.

(** On tidy lines everything before the terminator step is the identity. *)
Lemma before_fix_of_tidy (ls : list str) :
  Forall tidy ls ->
  before_fix (join [newline] ls)
  = strip (rstrip_chars (lit ";") (join [newline] ls)).
Proof.
  intros H. unfold before_fix.
  set (y := join [newline] ls).
  assert (F : contains fence y = false) by now apply join_fence_free.
  rewrite (replace_absent (lit "```cypher") [] y)
    by (apply (contains_longer fence (lit "cypher")); exact F).
  rewrite (replace_absent (lit "```") [] y) by exact F.
  rewrite (strip_fixed y (join_starts_ok ls H) (join_ends_ok ls H)).
  assert (C : collect_lines (split newline y) [] = ls).
  { destruct ls as [|l ls'] eqn:E; [reflexivity|].
    unfold y. rewrite split_join;
      [ now apply collect_lines_fixed
      | discriminate
      | now apply join_lines_one_line ]. }
  rewrite C. fold y.
  now rewrite (strip_fixed y (join_starts_ok ls H) (join_ends_ok ls H)).
Qed.

End Clean.

(** * Properties of the entity extractor *)

Section ExtractorFacts.

(** The rules after the first leave [query_type] and [course] alone. *)
Lemma find_student_frame (patterns : list Re.regex) (query : str)
      (e : entities) :
  query_type (find_student patterns query e) = query_type e
  /\ course (find_student patterns query e) = course e.
Proof.
  induction patterns as [|p ps IH]; simpl; [now split|].
  destruct (Re.search p query); [now split | exact IH].
Qed.

Lemma extract_entities_frame (query : str) :
  query_type (extract_entities query)
  = Some (detect_query_type (lower query))
  /\ course (extract_entities query) = None.
Proof.
  unfold extract_entities.
  destruct (find_student_frame student_patterns query
              (set_query_type (detect_query_type (lower query))
                              init_entities)) as [Hq Hc].
  simpl in Hq, Hc.
  destruct (find _ companies);
    destruct (find _ roles) as [[? ?]|];
    destruct (find _ common_skills);
    destruct (Re.search threshold_pattern (lower query)) as [[[?|]]|];
    simpl; now split.
Qed.

Lemma detect_query_type_spec (query_lower : str) :
  detect_query_type query_lower = Spec.first_match Spec.rules query_lower.
Proof.
  unfold detect_query_type, any_in, Spec.rules, Spec.first_match,
    Spec.mentions.
  cbn [existsb].
  rewrite !orb_false_r, <- !orb_assoc.
  reflexivity.
Qed.

(** The name heuristic keeps what it captures: the third pattern takes
    "Student" out of "Students", as the source would. *)
Example python_above_8_name :
  student_name (extract_entities Examples.python_above_8)
  = Some (lit "student").
Proof. vm_compute. reflexivity. Qed.

Example hello_entities :
  extract_entities Examples.hello
  = set_query_type (lit "retrieval") init_entities.
Proof. vm_compute. reflexivity. Qed.

End ExtractorFacts.

(** C4.  For every utterance the extractor's [query_type] is the one the
    priority cascade of the specification selects on the lower-cased
    utterance: recommend/suggest give recommendation; else missing skill,
    skill gap, or missing together with skill give gap_analysis; else
    qualify/eligible/match give matching; else count/average/sum/how many
    give aggregation; else retrieval.  It is always assigned, and it is one
    of the five query types. *)
Theorem query_type_is_priority_cascade (utterance : str) :
  query_type (extract_entities utterance) = Some (Spec.classify utterance)
  /\ In (Spec.classify utterance) Spec.query_types.
Proof.
  split.
  - rewrite (proj1 (extract_entities_frame utterance)).
    now rewrite detect_query_type_spec.
  - unfold Spec.classify, Spec.rules, Spec.first_match, Spec.query_types.
    repeat match goal with
           | |- context [if ?b then _ else _] => destruct b
           end; simpl; tauto.
Qed.

(** C9.  Besides the six fields of the data model the record has a
    seventh, [course], and it is [None] in every record the extractor
    returns: no rule assigns it. *)
Theorem course_is_never_assigned (utterance : str) :
  course (extract_entities utterance) = None.
Proof.
  exact (proj2 (extract_entities_frame utterance)).
Qed.

(** * Properties of the template synthesizer *)

Section FallbackFacts.

Lemma fallback_starts_with_match (query : str) (e : entities) :
  startswith (lit "MATCH (") (intelligent_fallback query e) = true.
Proof.
  unfold intelligent_fallback.
  repeat match goal with
         | |- context [if ?b then _ else _] => destruct b
         end; reflexivity.
Qed.

Lemma eighth_char_of_eligibility (company : option str) :
  nth 7 (eligibility_template company) " "%char = "i"%char.
Proof. reflexivity. Qed.

Lemma eighth_char_of_skill_filter (skill : option str) :
  nth 7 (skill_filter_template skill) " "%char = "s"%char.
Proof. reflexivity. Qed.

Lemma eighth_char_of_skill_filter_bounded
      (skill : option str) (threshold : option PyFloat.float) :
  nth 7 (skill_filter_bounded_template skill threshold) " "%char
  = "s"%char.
Proof. reflexivity. Qed.

(** What branch 5 emits, for every record that reaches it. *)
Lemma branch5_emits (query : str) (e : entities) :
  guard1 (lower query) e = false -> guard2 (lower query) e = false ->
  guard3 (lower query) e = false -> guard4 (lower query) e = false ->
  guard5 (lower query) e = true ->
  intelligent_fallback query e
  = if truthy_float (threshold e)
    then skill_filter_bounded_template (skill e) (threshold e)
    else skill_filter_template (skill e).
Proof.
  intros H1 H2 H3 H4 H5. unfold intelligent_fallback.
  now rewrite H1, H2, H3, H4, H5.
Qed.

End FallbackFacts.

(** C3.  For every utterance and every intent record the synthesizer (a
    total function) returns a non-empty query; when none of the guards of
    branches 1 to 9 holds, the query is the list-all-students template of
    branch 10. *)
Theorem fallback_always_returns_a_query (query : str) (e : entities) :
  intelligent_fallback query e <> []
  /\ (guard1 (lower query) e = false -> guard2 (lower query) e = false ->
      guard3 (lower query) e = false -> guard4 (lower query) e = false ->
      guard5 (lower query) e = false -> guard6 (lower query) e = false ->
      guard7 (lower query) e = false -> guard8 (lower query) e = false ->
      guard9 (lower query) e = false ->
      intelligent_fallback query e = list_all_students_template).
Proof.
  split.
  - intros H. pose proof (fallback_starts_with_match query e) as M.
    rewrite H in M. discriminate M.
  - intros H1 H2 H3 H4 H5 H6 H7 H8 H9. unfold intelligent_fallback.
    now rewrite H1, H2, H3, H4, H5, H6, H7, H8, H9.
Qed.

Lemma fallback_always_returns_a_query_witness :
  let e := extract_entities Examples.hello in
  intelligent_fallback Examples.hello e <> []
  /\ intelligent_fallback Examples.hello e = list_all_students_template.
Proof.
  intros e.
  destruct (fallback_always_returns_a_query Examples.hello e) as [Hne Hdef].
  split; [exact Hne|].
  apply Hdef; vm_compute; reflexivity.
Defined.

(** C5.  Whenever the guards of branch 1 (query type matching, the
    utterance mentions student, a company is known) and of branch 5 (a
    skill is known, the utterance mentions student) hold together, the
    synthesizer emits the eligibility template of branch 1 and neither of
    the two skill-filter texts of branch 5. *)
Theorem branch1_wins_over_branch5 (query : str) (e : entities) :
  guard1 (lower query) e = true ->
  guard5 (lower query) e = true ->
  intelligent_fallback query e = eligibility_template (company e)
  /\ intelligent_fallback query e <> skill_filter_template (skill e)
  /\ intelligent_fallback query e
     <> skill_filter_bounded_template (skill e) (threshold e).
Proof.
  intros H1 _.
  assert (E : intelligent_fallback query e = eligibility_template (company e))
    by (unfold intelligent_fallback; now rewrite H1).
  rewrite E. repeat split; intros H.
  - pose proof (eighth_char_of_eligibility (company e)) as A.
    rewrite H, eighth_char_of_skill_filter in A. discriminate A.
  - pose proof (eighth_char_of_eligibility (company e)) as A.
    rewrite H, eighth_char_of_skill_filter_bounded in A. discriminate A.
Qed.

Lemma branch1_wins_over_branch5_witness :
  let q := Examples.google_python in
  let e := extract_entities q in
  guard1 (lower q) e = true /\ guard5 (lower q) e = true
  /\ intelligent_fallback q e = eligibility_template (Some (lit "google")).
Proof.
  intros q e.
  assert (G1 : guard1 (lower q) e = true) by (vm_compute; reflexivity).
  assert (G5 : guard5 (lower q) e = true) by (vm_compute; reflexivity).
  split; [exact G1|]. split; [exact G5|].
  exact (proj1 (branch1_wins_over_branch5 q e G1 G5)).
Defined.

(** C1, at the input where the code departs from it.  On "Show skill gaps
    for Bob Smith for Amazon ML Engineer" the extractor produces
    [student_name = bob smith], [company = amazon] and
    [query_type = gap_analysis], and branch 4 fires with a role filter, as
    the claim says.  The role keyword, however, is [software] and not [ml]:
    the software category is tried first and its trigger "engineer" occurs
    in the utterance.  The emitted skill-gap query therefore filters the
    internships on [CONTAINS 'software'] and holds no filter on [ml]. *)
Theorem bob_smith_ml_role_is_lost :
  let q := Examples.bob_smith in
  let e := extract_entities q in
  student_name e = Some (lit "bob smith")
  /\ company e = Some (lit "amazon")
  /\ query_type e = Some (lit "gap_analysis")
  /\ guard1 (lower q) e = false /\ guard2 (lower q) e = false
  /\ guard3 (lower q) e = false /\ guard4 (lower q) e = true
  /\ contains (lit "ml") (lower q) = true
  /\ role_keywords e = Some (lit "software")
  /\ role_keywords e <> Some (lit "ml")
  /\ intelligent_fallback q e
     = skill_gap_template (Some (lit "bob smith")) (Some (lit "amazon"))
                          (Some (lit "software"))
  /\ intelligent_fallback q e
     <> skill_gap_template (Some (lit "bob smith")) (Some (lit "amazon"))
                           (Some (lit "ml"))
  /\ contains (lit "AND toLower(i.role) CONTAINS 'software'")
              (intelligent_fallback q e) = true
  /\ contains (lit "AND toLower(i.role) CONTAINS 'ml'")
              (intelligent_fallback q e) = false.
Proof.
  assert (R : role_keywords (extract_entities Examples.bob_smith)
              = Some (lit "software")) by (vm_compute; reflexivity).
  assert (Q : intelligent_fallback Examples.bob_smith
                (extract_entities Examples.bob_smith)
              = skill_gap_template (Some (lit "bob smith"))
                  (Some (lit "amazon")) (Some (lit "software")))
    by (vm_compute; reflexivity).
  cbv zeta. rewrite Q, R.
  repeat split; try (vm_compute; reflexivity).
  - intros H. discriminate H.
  - intros H.
    apply (f_equal (contains (lit "CONTAINS 'ml'"))) in H.
    vm_compute in H. discriminate H.
Qed.

(** C8.  On "Students with Python proficiency above 8" the extractor
    produces [skill = python], [threshold = 8.0] and
    [query_type = retrieval]; branches 1 to 4 do not apply, branch 5 does,
    and the emitted query bounds the proficiency from below by the
    inlined value 8.0. *)
Theorem python_above_8_query :
  let q := Examples.python_above_8 in
  let e := extract_entities q in
  skill e = Some (lit "python")
  /\ threshold e = Some (PyFloat.of_str (lit "8.0"))
  /\ PyFloat.repr (PyFloat.of_str (lit "8.0")) = lit "8.0"
  /\ query_type e = Some (lit "retrieval")
  /\ guard1 (lower q) e = false /\ guard2 (lower q) e = false
  /\ guard3 (lower q) e = false /\ guard4 (lower q) e = false
  /\ guard5 (lower q) e = true
  /\ intelligent_fallback q e
     = skill_filter_bounded_template (Some (lit "python"))
         (Some (PyFloat.of_str (lit "8.0")))
  /\ contains (lit "AND has.proficiency > 8.0") (intelligent_fallback q e)
     = true.
Proof.
  vm_compute. repeat split; reflexivity.
Qed.

(** C2, at the input where the code departs from it.  On "Students with
    Python proficiency above 0" a threshold is extracted (0.0) and branch
    5 is reached, yet the emitted query is the text without a proficiency
    bound: [if threshold:] takes the float 0.0 for absent. *)
Theorem zero_threshold_drops_the_bound :
  let q := Examples.python_above_0 in
  let e := extract_entities q in
  threshold e = Some (PyFloat.of_str (lit "0"))
  /\ guard1 (lower q) e = false /\ guard2 (lower q) e = false
  /\ guard3 (lower q) e = false /\ guard4 (lower q) e = false
  /\ guard5 (lower q) e = true
  /\ intelligent_fallback q e = skill_filter_template (Some (lit "python"))
  /\ contains (lit "has.proficiency >") (intelligent_fallback q e) = false.
Proof.
  vm_compute. repeat split; reflexivity.
Qed.

(** * Properties of the response sanitizer *)

(** C7.  Each rule of the scoping fix rewrites exactly when its alias
    pairing is present in the input.  If the input contains both
    "ORDER BY avg_gap" and "as Skill_Gap_Filled", the first rule replaces
    every occurrence of "ORDER BY avg_gap" by "ORDER BY Skill_Gap_Filled"
    and none is left in the result; otherwise the first rule leaves the
    text unchanged.  The same holds for "ORDER BY match_percent" with
    "as Match_Percent" and the second rule, whose pairing may be read off
    the input because the first rule neither creates nor destroys it. *)
Theorem scoping_fix_follows_alias_pairing (cypher : str) :
  (if avg_gap_pairing cypher
   then fix_avg_gap cypher
        = replace order_by_avg_gap order_by_skill_gap_filled cypher
        /\ contains order_by_avg_gap (_fix_cypher_scoping cypher) = false
   else fix_avg_gap cypher = cypher)
  /\ (if match_percent_pairing cypher
      then fix_match_percent (fix_avg_gap cypher)
           = replace order_by_match_percent order_by_Match_Percent
                     (fix_avg_gap cypher)
           /\ contains order_by_match_percent (_fix_cypher_scoping cypher)
              = false
      else fix_match_percent (fix_avg_gap cypher) = fix_avg_gap cypher)
  /\ _fix_cypher_scoping cypher = fix_match_percent (fix_avg_gap cypher).
Proof.
  split; [|split; [|reflexivity]].
  - rewrite fix_avg_gap_unfold.
    destruct (avg_gap_pairing cypher) eqn:P; [|reflexivity].
    split; [reflexivity|].
    unfold _fix_cypher_scoping.
    rewrite (fix_match_percent_unfold (fix_avg_gap cypher)).
    assert (G : contains order_by_avg_gap (fix_avg_gap cypher) = false)
      by (rewrite fix_avg_gap_unfold, P; apply avg_gap_gone).
    destruct (match_percent_pairing (fix_avg_gap cypher)); [|exact G].
    now rewrite match_percent_rule_keeps_avg_gap.
  - rewrite (fix_match_percent_unfold (fix_avg_gap cypher)).
    rewrite pairing_after_fix_avg_gap.
    destruct (match_percent_pairing cypher) eqn:P; [|reflexivity].
    split; [reflexivity|].
    unfold _fix_cypher_scoping.
    rewrite (fix_match_percent_unfold (fix_avg_gap cypher)).
    rewrite pairing_after_fix_avg_gap, P. apply match_percent_gone.
Qed.

(** C10.  For every input the sanitizer's output is the newline-join of
    lines none of which is blank (empty or white space only) and none of
    which begins with "//"; read back with [split], the output is either
    the empty text, which has no line at all, or consists of such lines
    only.  This covers interior lines as well as leading ones. *)
Theorem clean_output_has_no_blank_or_comment_line (response : str) :
  let ok line := strip line <> [] /\ startswith (lit "//") line = false in
  (exists lines,
      _clean_cypher_response response = join [newline] lines
      /\ Forall (fun line => ok line /\ ~ In newline line) lines)
  /\ (_clean_cypher_response response = []
      \/ Forall ok (split newline (_clean_cypher_response response))).
Proof.
  intros ok.
  destruct (clean_tidy response) as (ls & E & H).
  assert (K : Forall ok ls).
  { eapply Forall_impl; [|exact H].
    intros l (Hne & S & En & _ & _ & C & _). split; [|exact C].
    now rewrite strip_fixed. }
  split.
  - exists ls. split; [exact E|].
    apply Forall_forall. intros l Hl. rewrite Forall_forall in K, H.
    split; [now apply K|]. now destruct (H l Hl) as (_ & _ & _ & N & _).
  - destruct ls as [|l ls'] eqn:L; [now left|]. right.
    rewrite E, split_join; [exact K | discriminate |].
    now apply join_lines_one_line.
Qed.



(** * Further properties of the code *)

(** * The matcher is sound for [matches] *)

Section MatcherSound.
Import Re.

Lemma exec_sound {R : Type} (r : regex) :
  forall (s : str) (g : option str) (k : str -> option str -> option R)
         (x : R),
    exec r s g k = Some x ->
    exists u s' g', s = u ++ s' /\ matches r u g g' /\ k s' g' = Some x.
Proof.
  induction r as [|p|r1 IH1 r2 IH2|r1 IH1 r2 IH2|r1 IH1|r1 IH1];
    intros s g k x H; cbn [exec] in H.
  - exists [], s, g. repeat split; [constructor | exact H].
  - destruct s as [|c s]; [discriminate|].
    destruct (p c) eqn:E; [|discriminate].
    exists [c], s, g. repeat split; [now constructor | exact H].
  - apply IH1 in H as (u1 & s1 & g1 & -> & M1 & H).
    apply IH2 in H as (u2 & s2 & g2 & -> & M2 & H).
    exists (u1 ++ u2), s2, g2. rewrite app_assoc.
    repeat split; [now apply (M_Cat _ _ _ _ _ g1) | exact H].
  - destruct (exec r1 s g k) as [y|] eqn:E.
    + injection H as ->.
      apply IH1 in E as (u & s' & g' & -> & M & K).
      exists u, s', g'. repeat split; [now apply M_AltL | exact K].
    + apply IH2 in H as (u & s' & g' & -> & M & K).
      exists u, s', g'. repeat split; [now apply M_AltR | exact K].
  - revert H. generalize (length s) as fuel. intros fuel. revert s g.
    induction fuel as [|fuel IHf]; intros s g H.
    + exists [], s, g. repeat split; [constructor | exact H].
    + match type of H with
      | match ?e with _ => _ end = _ => destruct e as [y|] eqn:E
      end.
      * injection H as ->.
        apply IH1 in E as (u1 & s1 & g1 & -> & M1 & K).
        destruct (length s1 <? length (u1 ++ s1)); [|discriminate].
        apply IHf in K as (u2 & s2 & g2 & -> & M2 & K).
        exists (u1 ++ u2), s2, g2. rewrite app_assoc.
        repeat split; [now apply (M_StarCons _ _ _ _ g1) | exact K].
      * exists [], s, g. repeat split; [constructor | exact H].
  - apply IH1 in H as (u & s' & g' & -> & M & H).
    exists u, s', (Some u). repeat split; [now apply (M_Grp _ _ _ g')|].
    rewrite length_app, Nat.add_sub, firstn_app, Nat.sub_diag in H.
    now rewrite firstn_all, firstn_O, app_nil_r in H.
Qed.

Lemma search_sound (r : regex) (s : str) (m : re_match) :
  search r s = Some m ->
  exists pre u post, s = pre ++ u ++ post /\ matches r u None (group1 m).
Proof.
  induction s as [|c s IH]; cbn [search]; unfold match_at.
  - destruct (exec r [] None _) as [y|] eqn:E; [|discriminate].
    intros H. injection H as ->.
    apply exec_sound in E as (u & s' & g' & F & M & K).
    injection K as <-. exists [], u, s'. now split.
  - destruct (exec r (c :: s) None _) as [y|] eqn:E.
    + intros H. injection H as ->.
      apply exec_sound in E as (u & s' & g' & F & M & K).
      injection K as <-. exists [], u, s'. now split.
    + intros H. destruct (IH H) as (pre & u & post & -> & M).
      now exists (c :: pre), u, post.
Qed.

Lemma matches_captured (P : str -> Prop) (r : regex) (u : str)
      (g g' : option str) :
  matches r u g g' -> groups_sat P r -> captured P g -> captured P g'.
Proof.
  induction 1; cbn [groups_sat]; intros S C; try exact C.
  - destruct S as [S1 S2]. auto.
  - destruct S as [S1 S2]. auto.
  - destruct S as [S1 S2]. auto.
  - auto.
  - cbn. eapply S. eassumption.
Qed.

Lemma in_all_ascii (c : ascii) : In c all_ascii.
Proof.
  unfold all_ascii. rewrite <- (ascii_nat_embedding c).
  apply in_map, in_seq. pose proof (nat_ascii_bounded c). lia.
Qed.

Lemma subclass_elim (q p : ascii -> bool) (c : ascii) :
  subclass q p = true -> q c = true -> p c = true.
Proof.
  unfold subclass. rewrite forallb_forall. intros H Q.
  specialize (H c (in_all_ascii c)). now rewrite Q in H.
Qed.

Lemma matches_within (p : ascii -> bool) (r : regex) (u : str)
      (g g' : option str) :
  matches r u g g' -> within p r = true -> forallb p u = true.
Proof.
  induction 1; cbn [within]; intros W; try reflexivity.
  - cbn. now rewrite (subclass_elim _ p c W H).
  - apply andb_true_iff in W as [W1 W2].
    now rewrite forallb_app, IHmatches1, IHmatches2.
  - apply andb_true_iff in W as [W1 W2]. now apply IHmatches.
  - apply andb_true_iff in W as [W1 W2]. now apply IHmatches.
  - rewrite forallb_app, IHmatches1 by exact W. now apply IHmatches2.
  - now apply IHmatches.
Qed.

Lemma matches_needs (p : ascii -> bool) (r : regex) (u : str)
      (g g' : option str) :
  matches r u g g' -> needs p r = true -> existsb p u = true.
Proof.
  induction 1; cbn [needs]; intros W; try discriminate.
  - cbn. now rewrite (subclass_elim _ p c W H).
  - rewrite existsb_app. apply orb_true_iff in W as [W|W];
      [rewrite IHmatches1 by exact W | rewrite IHmatches2 by exact W];
      [reflexivity | apply orb_true_r].
  - apply andb_true_iff in W as [W1 W2]. now apply IHmatches.
  - apply andb_true_iff in W as [W1 W2]. now apply IHmatches.
  - now apply IHmatches.
Qed.

End MatcherSound.

(** * The fields of the extracted record *)

Section ExtractedFields.
Import Re.

Lemma find_first {A : Type} (f : A -> bool) (l : list A) (x : A) :
  find f l = Some x -> first_hit f l x.
Proof.
  unfold first_hit.
  induction l as [|a l IH]; [discriminate|]. cbn [find].
  destruct (f a) eqn:E.
  - intros H. injection H as ->. split; [exact E|].
    now exists [], l.
  - intros H. destruct (IH H) as (Fx & before & after & -> & B).
    split; [exact Fx|]. exists (a :: before), after.
    split; [reflexivity|]. cbn. now rewrite E.
Qed.

Lemma find_student_others (ps : list regex) (q : str) (e : entities) :
  company (find_student ps q e) = company e
  /\ role_keywords (find_student ps q e) = role_keywords e
  /\ skill (find_student ps q e) = skill e
  /\ threshold (find_student ps q e) = threshold e.
Proof.
  induction ps as [|p ps IH]; cbn [find_student]; [now repeat split|].
  destruct (search p q); [now repeat split | exact IH].
Qed.

(** Each field of the result, read off the rule that assigns it. *)
Lemma extract_entities_fields (u : str) :
  student_name (extract_entities u)
  = student_name (find_student student_patterns u init_entities)
  /\ company (extract_entities u)
     = find (fun c => contains c (lower u)) companies
  /\ role_keywords (extract_entities u)
     = option_map fst (find (fun item => any_in (snd item) (lower u)) roles)
  /\ skill (extract_entities u)
     = find (fun s => contains s (lower u)) common_skills.
Proof.
  unfold extract_entities.
  set (e0 := set_query_type _ init_entities).
  assert (N : student_name (find_student student_patterns u e0)
              = student_name (find_student student_patterns u init_entities)).
  { generalize student_patterns. intros ps.
    induction ps as [|p ps IH]; cbn [find_student]; [reflexivity|].
    destruct (search p u); [reflexivity | exact IH]. }
  destruct (find_student_others student_patterns u e0) as (C & R & S & T).
  cbn in C, R, S, T.
  destruct (find _ companies);
    destruct (find _ roles) as [[? ?]|];
    destruct (find _ common_skills);
    destruct (search threshold_pattern (lower u)) as [[[?|]]|];
    cbn; rewrite ?C, ?R, ?S; now repeat split.
Qed.

Lemma find_student_captured (P : str -> Prop) (ps : list regex) (q : str)
      (e : entities) :
  Forall (groups_sat P) ps -> student_name e = None ->
  match student_name (find_student ps q e) with
  | Some n => exists w, P w /\ n = lower w
  | None => True
  end.
Proof.
  intros F E. induction F as [|p ps Hp F IH]; cbn [find_student].
  - now rewrite E.
  - destruct (search p q) as [m|] eqn:S; [|exact IH].
    cbn. apply search_sound in S as (pre & w & post & _ & M).
    pose proof (matches_captured P p w None (group1 m) M Hp I) as C.
    destruct (group1 m) as [g|]; cbn; [|exact I]. now exists g.
Qed.

Lemma find_student_none (ps : list regex) (q : str) (e : entities) :
  Forall (fun p => search p q = None) ps ->
  find_student ps q e = e.
Proof.
  induction 1 as [|p ps Hp F IH]; cbn [find_student]; [reflexivity|].
  now rewrite Hp.
Qed.

End ExtractedFields.

(** * Character facts, checked on all 256 characters *)

Section CharFacts.

Lemma for_all_ascii (f : ascii -> bool) :
  forallb f all_ascii = true -> forall c, f c = true.
Proof.
  intros H c. rewrite forallb_forall in H. apply H, in_all_ascii.
Qed.

Lemma lower_char_upper (c : ascii) :
  is_upper c = true -> is_lower (lower_char c) = true.
Proof.
  intros H.
  pose proof (for_all_ascii
                (fun c => implb (is_upper c) (is_lower (lower_char c)))
                eq_refl c) as K.
  cbn beta in K. now rewrite H in K.
Qed.

Lemma lower_char_lower (c : ascii) :
  is_lower c = true -> is_lower (lower_char c) = true.
Proof.
  intros H.
  pose proof (for_all_ascii
                (fun c => implb (is_lower c) (is_lower (lower_char c)))
                eq_refl c) as K.
  cbn beta in K. now rewrite H in K.
Qed.

Lemma lower_char_letter_or_space (c : ascii) :
  letter_or_space c = true -> lower_or_space (lower_char c) = true.
Proof.
  intros H.
  pose proof (for_all_ascii
                (fun c => implb (letter_or_space c)
                                (lower_or_space (lower_char c)))
                eq_refl c) as K.
  cbn beta in K. now rewrite H in K.
Qed.

Lemma lower_or_space_inert (c : ascii) :
  lower_or_space c = true -> inert c = true.
Proof.
  intros H.
  pose proof (for_all_ascii (fun c => implb (lower_or_space c) (inert c))
                            eq_refl c) as K.
  cbn beta in K. now rewrite H in K.
Qed.

Lemma lower_char_not_upper (c : ascii) : is_upper (lower_char c) = false.
Proof.
  apply negb_true_iff.
  exact (for_all_ascii (fun c => negb (is_upper (lower_char c))) eq_refl c).
Qed.

Lemma lower_char_idempotent (c : ascii) :
  lower_char (lower_char c) = lower_char c.
Proof.
  apply Ascii.eqb_eq.
  exact (for_all_ascii
           (fun c => Ascii.eqb (lower_char (lower_char c)) (lower_char c))
           eq_refl c).
Qed.

End CharFacts.

Section Names.
Import Re.

Lemma name_words_shape (u : str) (g g1 : option str) :
  matches name_words u g g1 -> name_shape u.
Proof.
  intros M. split.
  - unfold name_words, capitalized, Plus, upper_AZ, lower_az in M.
    inversion M as [| |? ? u1 u2 ? ? ? M1 _| | | | |]; subst.
    inversion M1 as [| |? ? v1 v2 ? ? ? N1 N2| | | | |]; subst.
    inversion N1 as [|? c ? Hc| | | | | |]; subst.
    inversion N2 as [| |? ? w1 w2 ? ? ? L1 _| | | | |]; subst.
    inversion L1 as [|? d ? Hd| | | | | |]; subst.
    cbn [app]. eauto 6.
  - apply Forall_forall. intros c Hc.
    pose proof (matches_within letter_or_space name_words u g g1 M eq_refl)
      as W.
    rewrite forallb_forall in W. now apply W.
Qed.

Lemma student_patterns_capture_names :
  Forall (groups_sat name_shape) student_patterns.
Proof.
  unfold student_patterns.
  repeat constructor; cbn [groups_sat Str lit list_ascii_of_string];
    repeat split; intros; eapply name_words_shape; eassumption.
Qed.

Lemma lower_name_shape (w : str) :
  name_shape w -> stored_name_shape (lower w).
Proof.
  intros [(c & d & rest & -> & Hc & Hd) F]. split.
  - exists (lower_char c), (lower_char d), (lower rest).
    repeat split; [now apply lower_char_upper | now apply lower_char_lower].
  - unfold lower. apply Forall_map.
    eapply Forall_impl; [|exact F].
    intros a. apply lower_char_letter_or_space.
Qed.

Lemma student_patterns_need_capital :
  forallb (needs is_upper) student_patterns = true.
Proof. vm_compute. reflexivity. Qed.

End Names.

(** X1.  A student name, when the extractor finds one, begins with two
    lower-case letters a-z and consists of lower-case letters a-z and white
    space only: it is never empty and carries no digit, punctuation or
    capital. *)
Theorem student_name_is_lowercase_words (utterance name : str) :
  student_name (extract_entities utterance) = Some name ->
  stored_name_shape name.
Proof.
  intros H. rewrite (proj1 (extract_entities_fields utterance)) in H.
  pose proof (find_student_captured name_shape student_patterns utterance
                init_entities student_patterns_capture_names eq_refl) as C.
  rewrite H in C. destruct C as (w & Hw & ->).
  now apply lower_name_shape.
Qed.

Lemma student_name_is_lowercase_words_witness :
  stored_name_shape (lit "bob smith").
Proof.
  apply (student_name_is_lowercase_words Examples.bob_smith).
  vm_compute. reflexivity.
Defined.

(** X2.  An utterance without a capital letter A-Z never yields a student
    name, so for it the synthesizer cannot take the branches that need one
    (2, 3, 4 and 6). *)
Theorem no_capital_no_student (utterance : str) :
  existsb is_upper utterance = false ->
  student_name (extract_entities utterance) = None
  /\ guard2 (lower utterance) (extract_entities utterance) = false
  /\ guard3 (lower utterance) (extract_entities utterance) = false
  /\ guard4 (lower utterance) (extract_entities utterance) = false
  /\ guard6 (lower utterance) (extract_entities utterance) = false.
Proof.
  intros H.
  assert (N : student_name (extract_entities utterance) = None).
  { rewrite (proj1 (extract_entities_fields utterance)).
    rewrite find_student_none; [reflexivity|].
    pose proof student_patterns_need_capital as K.
    rewrite forallb_forall in K. apply Forall_forall. intros p Hp.
    destruct (Re.search p utterance) as [m|] eqn:S; [|reflexivity].
    apply search_sound in S as (pre & w & post & E & M).
    pose proof (matches_needs is_upper p w None _ M (K p Hp)) as U.
    rewrite E, !existsb_app, U, orb_true_r in H. discriminate H. }
  split; [exact N|].
  unfold guard2, guard3, guard4, guard6. rewrite N. cbn [truthy].
  now rewrite !andb_false_r.
Qed.

Lemma no_capital_no_student_witness :
  student_name (extract_entities no_capitals) = None.
Proof.
  apply (no_capital_no_student no_capitals). vm_compute. reflexivity.
Defined.

(** X3.  The company and the skill of the record are the first entry of
    their table, in table order, that occurs in the lower-cased utterance,
    and the role is the first category one of whose triggers occurs; each
    is unset exactly when no entry of its table occurs. *)
Theorem vocabulary_fields_are_first_matches (utterance : str) :
  let q := lower utterance in
  let e := extract_entities utterance in
  match company e with
  | Some c => first_hit (fun c => contains c q) companies c
  | None => no_hit (fun c => contains c q) companies
  end
  /\ match skill e with
     | Some s => first_hit (fun s => contains s q) common_skills s
     | None => no_hit (fun s => contains s q) common_skills
     end
  /\ match role_keywords e with
     | Some r => exists triggers,
                   first_hit (fun item => any_in (snd item) q) roles
                             (r, triggers)
     | None => no_hit (fun item => any_in (snd item) q) roles
     end.
Proof.
  intros q e.
  destruct (extract_entities_fields utterance) as (_ & C & R & S).
  fold e q in C, R, S. rewrite C, R, S.
  assert (none : forall A (f : A -> bool) l,
             find f l = None -> no_hit f l).
  { intros A f l H. apply forallb_forall. intros x Hx.
    now rewrite (find_none f l H x Hx). }
  repeat split.
  - destruct (find _ companies) eqn:E; [now apply find_first | now apply none].
  - destruct (find _ common_skills) eqn:E;
      [now apply find_first | now apply none].
  - destruct (find _ roles) as [[r triggers]|] eqn:E; cbn [option_map fst].
    + exists triggers. now apply find_first.
    + now apply none.
Qed.

(** X4.  The skill "javascript" is never extracted: "java" stands before it
    in the table and occurs in every utterance that mentions javascript. *)
Theorem javascript_is_never_extracted (utterance : str) :
  skill (extract_entities utterance) <> Some (lit "javascript").
Proof.
  destruct (extract_entities_fields utterance) as (_ & _ & _ & S).
  rewrite S. intros H.
  apply find_first in H as (Hit & before & after & T & B).
  assert (J : contains (lit "java") (lower utterance) = false).
  { destruct before as [|b0 [|b1 before]]; [discriminate T | discriminate T|].
    injection T as <- <- T.
    cbn [forallb] in B. apply andb_true_iff in B as [_ B].
    apply andb_true_iff in B as [B _]. now apply negb_true_iff. }
  change (lit "javascript") with (lit "java" ++ lit "script") in Hit.
  now rewrite (contains_longer (lit "java") (lit "script") _ J) in Hit.
Qed.

(** X5.  Every utterance that mentions "engineer", in any case, gets the
    role category software, whatever other role words it contains. *)
Theorem engineer_means_software (utterance : str) :
  contains (lit "engineer") (lower utterance) = true ->
  role_keywords (extract_entities utterance) = Some (lit "software").
Proof.
  intros H.
  destruct (extract_entities_fields utterance) as (_ & _ & R & _).
  rewrite R. unfold roles. cbn [find snd any_in existsb].
  now rewrite H, orb_true_r.
Qed.

Lemma engineer_means_software_witness :
  role_keywords (extract_entities data_engineer) = Some (lit "software").
Proof.
  apply (engineer_means_software data_engineer). vm_compute. reflexivity.
Defined.

Section FieldFacts.

Lemma vocabulary_is_quote_free :
  forallb quote_free companies = true
  /\ forallb quote_free common_skills = true
  /\ forallb (fun item => quote_free (fst item)) roles = true.
Proof. vm_compute. now repeat split. Qed.

Lemma stored_name_quote_free (n : str) :
  stored_name_shape n -> quote_free n = true.
Proof.
  intros [_ F]. apply forallb_forall. rewrite Forall_forall in F.
  intros c Hc. now apply lower_or_space_inert, F.
Qed.

Lemma stored_name_truthy (n : str) :
  stored_name_shape n -> truthy (Some n) = true.
Proof. now intros [(c & d & rest & -> & _) _]. Qed.

Lemma gap_analysis_mentions_skill (utterance : str) :
  query_type (extract_entities utterance) = Some (lit "gap_analysis") ->
  contains (lit "skill") (lower utterance) = true.
Proof.
  rewrite (proj1 (extract_entities_frame utterance)).
  unfold detect_query_type.
  destruct (any_in _ (lower utterance));
    [intros H; vm_compute in H; discriminate H|].
  destruct (contains (lit "missing skill") (lower utterance)) eqn:A.
  { intros _. apply contains_iff in A as (a & b & E).
    apply contains_iff. exists (a ++ lit "missing "), b.
    rewrite E, <- app_assoc. reflexivity. }
  destruct (contains (lit "skill gap") (lower utterance)) eqn:B.
  { intros _.
    destruct (contains (lit "skill") (lower utterance)) eqn:C;
      [reflexivity|].
    change (lit "skill gap") with (lit "skill" ++ lit " gap") in B.
    now rewrite (contains_longer (lit "skill") (lit " gap") _ C) in B. }
  destruct (contains (lit "skill") (lower utterance)); [reflexivity|].
  rewrite andb_false_r. cbn [orb].
  repeat match goal with
         | |- context [if ?b then _ else _] => destruct b
         end; intros H; vm_compute in H; discriminate H.
Qed.

End FieldFacts.

(** X6.  For every utterance, the four texts the templates put between
    single quotes (student name, company, role, skill, each printed as the
    f-string prints it) contain neither a single quote nor a backslash: no
    utterance can close or escape a quoted literal of the fallback query. *)
Theorem interpolated_values_are_quote_free (utterance : str) :
  let e := extract_entities utterance in
  quote_free (fmt (student_name e)) = true
  /\ quote_free (fmt (company e)) = true
  /\ quote_free (fmt (role_keywords e)) = true
  /\ quote_free (fmt (skill e)) = true.
Proof.
  intros e.
  destruct vocabulary_is_quote_free as (VC & VS & VR).
  rewrite forallb_forall in VC, VS, VR.
  destruct (extract_entities_fields utterance) as (_ & C & R & S).
  fold e in C, R, S. repeat split.
  - destruct (student_name e) as [n|] eqn:N; [|reflexivity].
    apply stored_name_quote_free.
    now apply (student_name_is_lowercase_words utterance).
  - rewrite C. destruct (find _ companies) as [c|] eqn:F; [|reflexivity].
    apply find_some in F as [I _]. now apply VC.
  - rewrite R. destruct (find _ roles) as [[r t]|] eqn:F; [|reflexivity].
    apply find_some in F as [I _]. exact (VR _ I).
  - rewrite S. destruct (find _ common_skills) as [s|] eqn:F; [|reflexivity].
    apply find_some in F as [I _]. now apply VS.
Qed.

(** X7.  An utterance classified as gap analysis always mentions "skill";
    so when it also names a student the synthesizer answers with the
    skill-gap template, one of the two skill-filter texts or the
    student's-skills template, never with a later branch or the default. *)
Theorem gap_analysis_with_student_never_defaults (utterance : str) :
  let e := extract_entities utterance in
  query_type e = Some (lit "gap_analysis") ->
  student_name e <> None ->
  In (intelligent_fallback utterance e)
     [ skill_gap_template (student_name e) (company e) (role_keywords e);
       skill_filter_bounded_template (skill e) (threshold e);
       skill_filter_template (skill e);
       student_skills_template (student_name e) ].
Proof.
  intros e Q N.
  pose proof (gap_analysis_mentions_skill utterance Q) as K.
  assert (T : truthy (student_name e) = true).
  { destruct (student_name e) as [n|] eqn:E; [|easy].
    apply stored_name_truthy.
    now apply (student_name_is_lowercase_words utterance). }
  unfold intelligent_fallback, guard1, guard2, guard3.
  rewrite Q. cbn [is_type].
  replace (str_eqb (lit "gap_analysis") (lit "matching")) with false
    by (vm_compute; reflexivity).
  replace (str_eqb (lit "gap_analysis") (lit "recommendation")) with false
    by (vm_compute; reflexivity).
  cbn [andb].
  destruct (guard4 _ e); [now left|].
  destruct (guard5 _ e).
  - destruct (truthy_float _); [right; now left | right; right; now left].
  - unfold guard6. rewrite T, K. cbn [andb]. right; right; right; now left.
Qed.

Lemma gap_analysis_with_student_never_defaults_witness :
  let e := extract_entities Examples.bob_smith in
  In (intelligent_fallback Examples.bob_smith e)
     [ skill_gap_template (student_name e) (company e) (role_keywords e);
       skill_filter_bounded_template (skill e) (threshold e);
       skill_filter_template (skill e);
       student_skills_template (student_name e) ].
Proof.
  apply (gap_analysis_with_student_never_defaults Examples.bob_smith).
  - vm_compute. reflexivity.
  - vm_compute. discriminate.
Defined.

(** X8.  A record without student, company and skill whose query type is
    not aggregation gets the list-all-students template, whatever the
    utterance says. *)
Theorem no_entities_means_default (query : str) (e : entities) :
  truthy (student_name e) = false ->
  truthy (company e) = false ->
  truthy (skill e) = false ->
  is_type (query_type e) (lit "aggregation") = false ->
  intelligent_fallback query e = list_all_students_template.
Proof.
  intros S C K A.
  unfold intelligent_fallback, guard1, guard2, guard3, guard4, guard5,
    guard6, guard7, guard8, guard9.
  rewrite S, C, K, A. cbn [andb]. now rewrite !andb_false_r.
Qed.

Lemma no_entities_means_default_witness :
  intelligent_fallback Examples.hello (extract_entities Examples.hello)
  = list_all_students_template.
Proof.
  apply no_entities_means_default; vm_compute; reflexivity.
Defined.

(** X9.  The average-GPA template is emitted only for an aggregation
    utterance that mentions "gpa" and does not mention "major": with
    "major" in the utterance the count-by-major branch comes first. *)
Theorem average_gpa_only_without_major (query : str) (e : entities) :
  intelligent_fallback query e = average_gpa_template ->
  is_type (query_type e) (lit "aggregation") = true
  /\ contains (lit "gpa") (lower query) = true
  /\ contains (lit "major") (lower query) = false.
Proof.
  unfold intelligent_fallback.
  destruct (guard1 _ e);
    [intros H; apply (f_equal (firstn 44)) in H; vm_compute in H;
     discriminate H|].
  destruct (guard2 _ e);
    [intros H; apply (f_equal (firstn 44)) in H; vm_compute in H;
     discriminate H|].
  destruct (guard3 _ e);
    [intros H; apply (f_equal (firstn 44)) in H; vm_compute in H;
     discriminate H|].
  destruct (guard4 _ e);
    [intros H; apply (f_equal (firstn 44)) in H; vm_compute in H;
     discriminate H|].
  destruct (guard5 _ e);
    [destruct (truthy_float _);
     intros H; apply (f_equal (firstn 44)) in H; vm_compute in H;
     discriminate H|].
  destruct (guard6 _ e);
    [intros H; apply (f_equal (firstn 44)) in H; vm_compute in H;
     discriminate H|].
  destruct (guard7 _ e);
    [intros H; apply (f_equal (firstn 44)) in H; vm_compute in H;
     discriminate H|].
  destruct (guard8 _ e) eqn:G8;
    [intros H; apply (f_equal (firstn 44)) in H; vm_compute in H;
     discriminate H|].
  destruct (guard9 _ e) eqn:G9;
    [|intros H; apply (f_equal (firstn 44)) in H; vm_compute in H;
      discriminate H].
  intros _. unfold guard8, guard9 in *.
  apply andb_true_iff in G9 as [A G]. rewrite A in G8. cbn [andb] in G8.
  now repeat split.
Qed.

Lemma average_gpa_only_without_major_witness :
  contains (lit "major") (lower average_gpa_no_major) = false.
Proof.
  apply (average_gpa_only_without_major average_gpa_no_major
           (extract_entities average_gpa_no_major)).
  vm_compute. reflexivity.
Defined.

Section CleanFacts.

Lemma fence_cypher_nonempty : fence_cypher <> [].
Proof. discriminate. Qed.

Lemma fence_one_line : ~ In newline fence.
Proof. intros H. vm_compute in H. intuition discriminate. Qed.

Lemma fence_cypher_one_line : ~ In newline fence_cypher.
Proof. intros H. vm_compute in H. intuition discriminate. Qed.

Lemma fence_cypher_absent (s : str) :
  contains fence s = false -> contains fence_cypher s = false.
Proof. apply (contains_longer fence (lit "cypher")). Qed.

(** The text after the two fence removals. *)
Lemma unfence_fence_free (s : str) :
  contains fence s = false ->
  replace fence [] (replace fence_cypher [] s) = s.
Proof.
  intros F.
  rewrite (replace_absent fence_cypher [] s (fence_cypher_absent s F)).
  now apply replace_absent.
Qed.

Lemma unfence_line (l rest : str) :
  contains fence l = false ->
  replace fence [] (replace fence_cypher [] (l ++ newline :: rest))
  = l ++ newline :: replace fence [] (replace fence_cypher [] rest).
Proof.
  intros F.
  rewrite (replace_line fence_cypher [] fence_cypher_nonempty
             fence_cypher_one_line).
  rewrite (replace_absent fence_cypher [] l (fence_cypher_absent l F)).
  rewrite (replace_line fence [] fence_nonempty fence_one_line).
  now rewrite (replace_absent fence [] l F).
Qed.

Lemma drop_while_all (p : ascii -> bool) (s : str) :
  forallb p s = true -> drop_while p s = [].
Proof.
  induction s as [|c s IH]; [reflexivity|]. cbn.
  intros H. apply andb_true_iff in H as [-> H]. now apply IH.
Qed.

Lemma drop_while_app (p : ascii -> bool) (a b : str) :
  drop_while p a <> [] -> drop_while p (a ++ b) = drop_while p a ++ b.
Proof.
  induction a as [|c a IH]; [easy|]. cbn [app drop_while].
  destruct (p c); [exact IH | reflexivity].
Qed.

Lemma drop_while_dropped (p : ascii -> bool) (s : str) :
  exists u, s = u ++ drop_while p s /\ forallb p u = true.
Proof.
  induction s as [|c s (u & E & F)]; [now exists []|].
  cbn [drop_while]. destruct (p c) eqn:P.
  - exists (c :: u). cbn. rewrite P, F. split; [now f_equal | reflexivity].
  - now exists [].
Qed.

Lemma rstrip_split (s : str) :
  exists v, s = rstrip s ++ v /\ forallb is_space v = true.
Proof.
  destruct (drop_while_dropped is_space (rev s)) as (u & E & F).
  exists (rev u). split.
  - unfold rstrip. rewrite <- rev_app_distr, <- E. now rewrite rev_involutive.
  - rewrite forallb_forall in *. intros c Hc. apply F. now apply in_rev.
Qed.

Lemma rstrip_app_spaces (p m : str) :
  ends_ok p = true -> forallb is_space m = true -> rstrip (p ++ m) = p.
Proof.
  intros E M. unfold rstrip. rewrite rev_app_distr.
  destruct p as [|c p].
  - rewrite app_nil_r, drop_while_all; [reflexivity|].
    rewrite forallb_forall in *. intros x Hx. apply M. now apply in_rev.
  - assert (D : drop_while is_space (rev m ++ rev (c :: p)) = rev (c :: p)).
    { assert (Mr : forallb is_space (rev m) = true).
      { rewrite forallb_forall in *. intros x Hx. apply M. now apply in_rev. }
      revert Mr. generalize (rev m) as r. intros r.
      induction r as [|x r IH]; cbn [app drop_while forallb].
      - intros _. apply drop_while_fixed. exact E.
      - intros H. apply andb_true_iff in H as [-> H]. now apply IH. }
    rewrite D. apply rev_involutive.
Qed.

Lemma strip_nil_of_lstrip (a : str) : lstrip a = [] -> strip a = [].
Proof. unfold strip. now intros ->. Qed.

Lemma lstrip_one_line (a : str) : ~ In newline a -> ~ In newline (lstrip a).
Proof.
  intros N I. apply N. destruct (lstrip_suffix a) as [u E].
  rewrite E. apply in_or_app. now right.
Qed.

Lemma strip_lstrip (a : str) : strip (lstrip a) = strip a.
Proof.
  unfold strip. now rewrite (lstrip_fixed (lstrip a))
    by apply drop_while_starts_ok.
Qed.

(** The first line of the stripped text is the first line of the text,
    up to white space at its ends. *)
Lemma first_line_of_strip (a tail : str) :
  ~ In newline a -> strip a <> [] ->
  tail = [] \/ (exists b, tail = newline :: b) ->
  exists l0 ls,
    split newline (strip (a ++ tail)) = l0 :: ls /\ strip l0 = strip a.
Proof.
  intros N S T.
  assert (A0 : lstrip a <> [])
    by (intros E; apply S; now apply strip_nil_of_lstrip).
  assert (L : lstrip (a ++ tail) = lstrip a ++ tail)
    by now apply drop_while_app.
  destruct T as [->|[b ->]].
  - rewrite app_nil_r. exists (strip a), [].
    split.
    + apply split_one_line. intros I. apply N.
      destruct (strip_sub a) as (u & v & E). rewrite E.
      apply in_or_app. right. apply in_or_app. now left.
    + apply strip_fixed; [apply strip_starts_ok | apply strip_ends_ok].
  - unfold strip at 1. rewrite L.
    set (A := lstrip a) in *.
    destruct (rstrip_split (A ++ newline :: b)) as (v & E & V).
    set (p := rstrip (A ++ newline :: b)) in *.
    assert (Ep : ends_ok p = true) by apply rstrip_ends_ok.
    symmetry in E. apply app_eq_app in E as [m [[E1 E2]|[E1 E2]]]; cycle 1.
    + (* the stripped text ends inside the first line *)
      assert (M : forallb is_space m = true).
      { rewrite E2, forallb_app in V. now apply andb_true_iff in V as [V _]. }
      assert (P : strip a = p).
      { unfold strip. fold A. rewrite E1. now apply rstrip_app_spaces. }
      exists p, []. split.
      * apply split_one_line. intros I.
        apply (lstrip_one_line a N). fold A. rewrite E1.
        apply in_or_app. now left.
      * rewrite <- P.
        apply strip_fixed; [apply strip_starts_ok | apply strip_ends_ok].
    + destruct m as [|x m].
      * rewrite app_nil_r in E1. exists A, []. split.
        -- rewrite E1. apply split_one_line. now apply lstrip_one_line.
        -- apply strip_lstrip.
      * cbn [app] in E2. injection E2 as <- E2.
        exists A, (split newline m). split.
        -- rewrite E1. apply split_line. now apply lstrip_one_line.
        -- apply strip_lstrip.
Qed.

Lemma has_marker_nil : has_marker [] = false.
Proof. reflexivity. Qed.

Lemma has_marker_nonempty (l : str) : has_marker l = true -> l <> [].
Proof. intros H ->. discriminate H. Qed.

(** A sanitizer output without trailing terminator is a fixed point. *)
Lemma clean_fixed_point (response : str) :
  endswith (lit ";") (_clean_cypher_response response) = false ->
  _clean_cypher_response (_clean_cypher_response response)
  = _clean_cypher_response response.
Proof.
  intros T.
  destruct (clean_tidy response) as (ls & E & H).
  pose proof (avg_gap_pairing_after_fix (before_fix response)) as P1.
  pose proof (match_percent_pairing_after_fix (before_fix response)) as P2.
  rewrite <- clean_unfold in P1, P2.
  set (out := _clean_cypher_response response) in *.
  assert (S : starts_ok out = true) by (rewrite E; now apply join_starts_ok).
  assert (N : ends_ok out = true) by (rewrite E; now apply join_ends_ok).
  rewrite clean_unfold, E, (before_fix_of_tidy ls H), <- E.
  change (lit ";") with [";"%char] in *.
  rewrite (rstrip_chars_fixed _ _ T), (strip_fixed out S N).
  now apply fix_without_pairing.
Qed.

End CleanFacts.

Section CleanMore.

Lemma before_fix_marker_first (first tail : str) :
  ~ In newline first -> contains fence first = false ->
  has_marker (strip first) = true ->
  tail = [] \/ (exists rest, tail = newline :: rest) ->
  before_fix (first ++ tail) = [].
Proof.
  intros N F M T. unfold before_fix.
  assert (U : exists tail',
             replace (lit "```") [] (replace (lit "```cypher") []
                                             (first ++ tail))
             = first ++ tail'
             /\ (tail' = [] \/ exists b, tail' = newline :: b)).
  { destruct T as [->|[rest ->]].
    - exists []. split; [|now left].
      rewrite app_nil_r. now apply unfence_fence_free.
    - eexists. split; [now apply unfence_line | right; eauto]. }
  destruct U as (tail' & -> & T').
  destruct (first_line_of_strip first tail' N
              (has_marker_nonempty _ M) T') as (l0 & ls & -> & E).
  cbn [collect_lines]. now rewrite E, M.
Qed.

Lemma strip_between_newlines (y : str) :
  starts_ok y = true -> ends_ok y = true ->
  strip (newline :: y ++ [newline]) = y.
Proof.
  intros S E. destruct y as [|c y]; [reflexivity|].
  unfold strip.
  assert (L : lstrip (newline :: (c :: y) ++ [newline])
              = (c :: y) ++ [newline]).
  { unfold lstrip. cbn [drop_while]. 
    replace (is_space newline) with true by reflexivity.
    apply drop_while_fixed. exact S. }
  rewrite L. now apply rstrip_app_spaces.
Qed.

Lemma unfence_wrapped (y : str) :
  contains fence y = false ->
  replace (lit "```") []
          (replace (lit "```cypher") []
                   (lit "```cypher" ++ newline :: y ++ newline :: lit "```"))
  = newline :: y ++ [newline].
Proof.
  intros F.
  rewrite (replace_hit fence_cypher [] fence_cypher_nonempty). cbn [app].
  assert (A : contains fence_cypher (newline :: y ++ newline :: lit "```")
              = false).
  { rewrite (contains_line fence_cypher [] _ fence_cypher_nonempty
               fence_cypher_one_line
             : contains fence_cypher (newline :: _) = _).
    rewrite (contains_line fence_cypher y _ fence_cypher_nonempty
               fence_cypher_one_line).
    now rewrite (fence_cypher_absent y F). }
  rewrite (replace_absent fence_cypher [] _ A).
  rewrite (replace_line fence [] fence_nonempty fence_one_line [] _
           : replace fence [] (newline :: _) = _).
  rewrite (replace_line fence [] fence_nonempty fence_one_line).
  now rewrite (replace_absent fence [] y F).
Qed.

End CleanMore.

(** X10.  The sanitizer's output is trimmed (stripping it changes
    nothing), contains no code fence, and none of its lines contains an
    explanation marker. *)
Theorem clean_output_is_trimmed_and_unmarked (response : str) :
  let out := _clean_cypher_response response in
  strip out = out
  /\ contains (lit "```") out = false
  /\ (out = [] \/ Forall (fun line => has_marker line = false)
                         (split newline out)).
Proof.
  intros out. destruct (clean_tidy response) as (ls & E & H).
  fold out in E. repeat split.
  - rewrite E. apply strip_fixed;
      [now apply join_starts_ok | now apply join_ends_ok].
  - rewrite E. now apply join_fence_free.
  - destruct ls as [|l ls'] eqn:L; [now left|]. right.
    rewrite E, split_join;
      [| discriminate | now apply join_lines_one_line].
    eapply Forall_impl; [|exact H].
    now intros a (_ & _ & _ & _ & M & _).
Qed.

(** X11.  The scoping fix is idempotent, and after it neither ordering
    clause occurs together with its alias. *)
Theorem scoping_fix_is_idempotent (cypher : str) :
  _fix_cypher_scoping (_fix_cypher_scoping cypher)
  = _fix_cypher_scoping cypher
  /\ avg_gap_pairing (_fix_cypher_scoping cypher) = false
  /\ match_percent_pairing (_fix_cypher_scoping cypher) = false.
Proof.
  pose proof (avg_gap_pairing_after_fix cypher) as A.
  pose proof (match_percent_pairing_after_fix cypher) as M.
  repeat split; [now apply fix_without_pairing | exact A | exact M].
Qed.

(** X12.  If the first line of a response contains an explanation marker
    (and no code fence), the sanitizer returns the empty text, whatever
    follows that line. *)
Theorem explanation_on_first_line_empties (first rest : str) :
  ~ In newline first ->
  contains (lit "```") first = false ->
  has_marker (strip first) = true ->
  _clean_cypher_response first = []
  /\ _clean_cypher_response (first ++ newline :: rest) = [].
Proof.
  intros N F M. split; rewrite clean_unfold.
  - rewrite <- (app_nil_r first).
    rewrite (before_fix_marker_first first [] N F M); [reflexivity|now left].
  - rewrite (before_fix_marker_first first _ N F M); [reflexivity|].
    right. now exists rest.
Qed.

Lemma explanation_on_first_line_empties_witness :
  _clean_cypher_response explained_reply = [].
Proof.
  apply (explanation_on_first_line_empties explanation_line explained_query).
  - intros H. vm_compute in H. intuition discriminate.
  - vm_compute. reflexivity.
  - vm_compute. reflexivity.
Defined.

(** X13.  A response made of white space only, the empty response
    included, is sanitized to the empty text. *)
Theorem blank_response_gives_empty (response : str) :
  forallb is_space response = true ->
  _clean_cypher_response response = [].
Proof.
  intros B.
  assert (F : contains fence response = false).
  { destruct (contains fence response) eqn:C; [|reflexivity].
    apply contains_iff in C as (a & b & ->).
    rewrite !forallb_app in B.
    apply andb_true_iff in B as [_ B]. apply andb_true_iff in B as [B _].
    discriminate B. }
  rewrite clean_unfold. unfold before_fix.
  rewrite (unfence_fence_free response F
           : replace (lit "```") [] (replace (lit "```cypher") [] response)
             = response).
  assert (S : strip response = []).
  { apply strip_nil_of_lstrip. now apply drop_while_all. }
  rewrite S. reflexivity.
Qed.

Lemma blank_response_gives_empty_witness :
  _clean_cypher_response (lit "   ") = [].
Proof. apply blank_response_gives_empty. vm_compute. reflexivity. Defined.

(** X14.  Wrapping a sanitizer output that has no trailing terminator in a
    cypher code fence and sanitizing again gives the output back. *)
Theorem fenced_output_is_unwrapped (response : str) :
  let out := _clean_cypher_response response in
  endswith (lit ";") out = false ->
  _clean_cypher_response
    (lit "```cypher" ++ newline :: out ++ newline :: lit "```")
  = out.
Proof.
  intros out T.
  destruct (clean_tidy response) as (ls & E & H). fold out in E.
  assert (F : contains fence out = false)
    by (rewrite E; now apply join_fence_free).
  assert (S : starts_ok out = true) by (rewrite E; now apply join_starts_ok).
  assert (N : ends_ok out = true) by (rewrite E; now apply join_ends_ok).
  transitivity (_clean_cypher_response out);
    [|exact (clean_fixed_point response T)].
  rewrite !clean_unfold. f_equal. unfold before_fix.
  rewrite (unfence_wrapped out F), (strip_between_newlines out S N).
  now rewrite (unfence_fence_free out F
               : replace (lit "```") [] (replace (lit "```cypher") [] out)
                 = out), (strip_fixed out S N).
Qed.

Lemma fenced_output_is_unwrapped_witness :
  _clean_cypher_response
    (lit "```cypher" ++ newline :: list_all_students_template
         ++ newline :: lit "```")
  = list_all_students_template.
Proof.
  apply (fenced_output_is_unwrapped list_all_students_template).
  vm_compute. reflexivity.
Defined.

Section MoreExtractorFacts.

Lemma extract_entities_threshold (u : str) :
  threshold (extract_entities u)
  = match Re.search threshold_pattern (lower u) with
    | Some m => option_map PyFloat.of_str (Re.group1 m)
    | None => None
    end.
Proof.
  unfold extract_entities.
  set (e0 := set_query_type _ init_entities).
  destruct (find_student_others student_patterns u e0) as (_ & _ & _ & T).
  cbn in T.
  destruct (find _ companies);
    destruct (find _ roles) as [[? ?]|];
    destruct (find _ common_skills);
    destruct (Re.search threshold_pattern (lower u)) as [[[?|]]|];
    cbn; now rewrite ?T.
Qed.

Lemma lower_idempotent (s : str) : lower (lower s) = lower s.
Proof.
  unfold lower. rewrite map_map. apply map_ext. apply lower_char_idempotent.
Qed.

Lemma lower_has_no_capital (s : str) : existsb is_upper (lower s) = false.
Proof.
  unfold lower. induction s as [|c s IH]; [reflexivity|].
  cbn [map existsb]. now rewrite lower_char_not_upper, IH.
Qed.

End MoreExtractorFacts.

(** X15.  Lower-casing an utterance before extraction loses the student
    name and changes no other field. *)
Theorem lowercasing_loses_only_the_name (utterance : str) :
  let e := extract_entities utterance in
  let e' := extract_entities (lower utterance) in
  student_name e' = None
  /\ query_type e' = query_type e
  /\ company e' = company e
  /\ role_keywords e' = role_keywords e
  /\ skill e' = skill e
  /\ threshold e' = threshold e.
Proof.
  intros e e'. subst e e'.
  destruct (extract_entities_fields utterance) as (_ & C & R & S).
  destruct (extract_entities_fields (lower utterance)) as (_ & C' & R' & S').
  rewrite lower_idempotent in C', R', S'.
  repeat split.
  - apply no_capital_no_student, lower_has_no_capital.
  - rewrite !(proj1 (extract_entities_frame _)). now rewrite lower_idempotent.
  - now rewrite C, C'.
  - now rewrite R, R'.
  - now rewrite S, S'.
  - rewrite !extract_entities_threshold. now rewrite lower_idempotent.
Qed.

(** X16.  When the completion request raises, [generate_cypher_query]
    returns the fallback query of the utterance, a text that starts with
    "MATCH (". *)
Theorem orchestrator_falls_back_when_the_call_fails
        (client : str -> completion) (query message : str) :
  client (context query (extract_entities query)) = Raised message ->
  generate_cypher_query client query
  = intelligent_fallback query (extract_entities query)
  /\ startswith (lit "MATCH (") (generate_cypher_query client query) = true.
Proof.
  intros H.
  assert (E : generate_cypher_query client query
              = intelligent_fallback query (extract_entities query)).
  { unfold generate_cypher_query, _call_groq. now rewrite H. }
  split; [exact E|]. rewrite E. apply fallback_starts_with_match.
Qed.

Lemma orchestrator_falls_back_when_the_call_fails_witness :
  generate_cypher_query unreachable_backend Examples.hello
  = list_all_students_template.
Proof.
  destruct (orchestrator_falls_back_when_the_call_fails
              unreachable_backend Examples.hello (lit "Connection error.")
              eq_refl) as [E _].
  rewrite E. vm_compute. reflexivity.
Defined.

(** X17.  When the completion request returns a reply whose first line
    carries an explanation marker, [generate_cypher_query] returns the empty
    text: the fallback is not consulted, and the result differs from the
    fallback query. *)
Theorem orchestrator_returns_empty_for_explained_reply
        (client : str -> completion) (query reply first rest : str) :
  client (context query (extract_entities query)) = Content reply ->
  strip reply = first ++ newline :: rest ->
  ~ In newline first ->
  contains (lit "```") first = false ->
  has_marker (strip first) = true ->
  generate_cypher_query client query = []
  /\ generate_cypher_query client query
     <> intelligent_fallback query (extract_entities query).
Proof.
  intros H S N F M.
  assert (E : generate_cypher_query client query = []).
  { unfold generate_cypher_query, _call_groq. rewrite H, S.
    now apply explanation_on_first_line_empties. }
  split; [exact E|]. rewrite E. intros K.
  pose proof (fallback_starts_with_match query (extract_entities query)) as B.
  rewrite <- K in B. discriminate B.
Qed.

Lemma orchestrator_returns_empty_for_explained_reply_witness :
  generate_cypher_query explaining_backend Examples.hello = [].
Proof.
  apply (orchestrator_returns_empty_for_explained_reply
           explaining_backend Examples.hello _
           explanation_line explained_query eq_refl).
  - vm_compute. reflexivity.
  - intros H. vm_compute in H. intuition discriminate.
  - vm_compute. reflexivity.
  - vm_compute. reflexivity.
Defined.


Lemma given_truthy (argument : option str) :
  given argument = None <-> truthy argument = false.
Proof. destruct argument as [[|c t]|]; cbn; split; easy. Qed.

(** The values bound are the whole arguments, not a part of them. *)
Example recommend_courses_binds_the_whole_id (num : Type) :
  snd (recommend_courses_request num (Some student_s001) None)
  = [(lit "student_id", AStr num student_s001)].
Proof. reflexivity. Qed.

Example search_students_binds_the_whole_major
        (num : Type) (num_truthy : num -> bool) :
  snd (search_students_request num num_truthy None (Some computer_science)
                               None)
  = [(lit "major", AStr num computer_science)].
Proof. reflexivity. Qed.


(** X19.  [search_students] binds no parameter exactly when its query is
    the one with [WHERE true], and that is exactly when every filter is
    absent or falsy (an empty string, a zero GPA). *)
Theorem search_without_usable_filter_matches_all
        (num : Type) (num_truthy : num -> bool)
        (skill_name major : option str) (min_gpa : option num) :
  let r := search_students_request num num_truthy skill_name major min_gpa in
  (snd r = [] <-> fst r = search_query (lit "true"))
  /\ (snd r = [] <->
      truthy skill_name = false /\ truthy major = false
      /\ match min_gpa with Some x => num_truthy x | None => false end
         = false).
Proof.
  unfold search_students_request.
  rewrite <- !given_truthy.
  destruct (given skill_name) as [s|]; destruct (given major) as [m|];
    destruct min_gpa as [x|];
    try destruct (num_truthy x) eqn:T; cbn [fst snd app];
    (split; split; intros H;
     try reflexivity; try discriminate H; try (now repeat split);
     try (destruct H as (? & ? & ?); discriminate);
     try (apply (f_equal (fun s => nth 40 s " "%char)) in H;
          vm_compute in H; discriminate H)).
Qed.

(** X20.  In every result of [execute_query], [count] is the number of
    rows in [data]; [error] is absent exactly on success; a failure has no
    rows; without a driver the call fails; and on success the rows have the
    keys of the records the driver returned, in the same order. *)
Theorem execute_query_result_is_consistent
        (num scalar pylist properties : Type)
        (d : driver num scalar pylist properties) (query : str)
        (p : option (params num)) :
  let r := execute_query num scalar pylist properties d query p in
  count _ _ _ r = length (data _ _ _ r)
  /\ (success _ _ _ r = true <-> error _ _ _ r = None)
  /\ (success _ _ _ r = true \/ data _ _ _ r = [])
  /\ match d with
     | None => success _ _ _ r = false
     | Some run =>
         match run query (match p with None => [] | Some p => p end) with
         | inl records =>
             success _ _ _ r = true
             /\ map (map fst) (data _ _ _ r) = map (map fst) records
         | inr _ => success _ _ _ r = false
         end
     end.
Proof.
  unfold execute_query. destruct d as [run|]; cbn.
  - destruct (run query _) as [records|e]; cbn.
    + repeat split; try easy; [now left|].
      rewrite map_map. apply map_ext. intros rec.
      unfold record_dict. rewrite map_map. now apply map_ext.
    + repeat split; try easy. now right.
  - repeat split; try easy. now right.
Qed.

(** * Cutting the response at a marker line *)

Section CutAtMarker.

Lemma split_app_newline (a b : str) :
  split newline (a ++ newline :: b) = split newline a ++ split newline b.
Proof.
  induction a as [|c a IH]; cbn [app split].
  - now rewrite Ascii.eqb_refl.
  - destruct (Ascii.eqb c newline); [now rewrite IH|].
    rewrite IH. destruct (split newline a) eqn:E; [|reflexivity].
    now destruct (split_nonempty a).
Qed.

Lemma first_line_or_only (x : str) :
  ~ In newline x
  \/ exists l r, x = l ++ newline :: r /\ ~ In newline l.
Proof.
  induction x as [|c x IH]; [now left|].
  destruct (Ascii.eqb c newline) eqn:E.
  - apply Ascii.eqb_eq in E. subst c. right. exists [], x. now split.
  - apply Ascii.eqb_neq in E. destruct IH as [N|(l & r & -> & N)].
    + left. intros [H|H]; [now apply E | now apply N].
    + right. exists (c :: l), r. split; [reflexivity|].
      intros [H|H]; [now apply E | now apply N].
Qed.

(** One round of the loop only looks at the stripped line. *)
Lemma collect_lines_cons (l l' : str) (rest rest' acc : list str) :
  strip l = strip l' ->
  (forall acc', collect_lines rest acc' = collect_lines rest' acc') ->
  collect_lines (l :: rest) acc = collect_lines (l' :: rest') acc.
Proof.
  intros E H. cbn [collect_lines]. rewrite E.
  destruct (has_marker (strip l')); [reflexivity|].
  destruct (negb (nonempty acc) && negb (nonempty (strip l'))); [apply H|].
  destruct (nonempty (strip l') && _); apply H.
Qed.

Lemma collect_lines_marker (ls1 ls2 : list str) (l : str) (acc : list str) :
  has_marker (strip l) = true ->
  collect_lines (ls1 ++ l :: ls2) acc = collect_lines ls1 acc.
Proof.
  intros M. revert acc. induction ls1 as [|a ls1 IH]; intros acc.
  - cbn [app collect_lines]. now rewrite M.
  - cbn [app]. apply collect_lines_cons; [reflexivity | exact IH].
Qed.

Lemma collect_lines_blank (l : str) (rest acc : list str) :
  strip l = [] -> collect_lines (l :: rest) acc = collect_lines rest acc.
Proof.
  intros E. cbn [collect_lines]. rewrite E, has_marker_nil.
  cbn [nonempty negb andb]. rewrite andb_true_r.
  now destruct (negb (nonempty acc)).
Qed.

Lemma strip_spaces (v : str) : forallb is_space v = true -> strip v = [].
Proof. intros H. apply strip_nil_of_lstrip. now apply drop_while_all. Qed.

Lemma collect_lines_spaces (v : str) (acc : list str) :
  forallb is_space v = true -> collect_lines (split newline v) acc = acc.
Proof.
  remember (length v) as n eqn:En. revert v En.
  induction n as [n IH] using lt_wf_ind. intros v En V.
  destruct (first_line_or_only v) as [N|(l & r & -> & N)].
  - rewrite (split_one_line v N), collect_lines_blank; [reflexivity|].
    now apply strip_spaces.
  - rewrite (split_line l r N).
    rewrite forallb_app in V. apply andb_true_iff in V as [Vl Vr].
    cbn [forallb] in Vr. apply andb_true_iff in Vr as [_ Vr].
    rewrite collect_lines_blank by now apply strip_spaces.
    apply (IH (length r)); [|reflexivity|exact Vr].
    subst n. rewrite length_app. cbn. lia.
Qed.

Lemma rstrip_app_spaces_any (x v : str) :
  forallb is_space v = true -> rstrip (x ++ v) = rstrip x.
Proof.
  intros V. destruct (rstrip_split x) as (w & E & W).
  rewrite E at 1. rewrite <- app_assoc.
  apply rstrip_app_spaces; [apply rstrip_ends_ok|].
  now rewrite forallb_app, W, V.
Qed.

Lemma strip_app_spaces (x v : str) :
  forallb is_space v = true -> strip (x ++ v) = strip x.
Proof.
  intros V. unfold strip.
  destruct (lstrip x) as [|c a] eqn:L.
  - assert (X : forallb is_space x = true).
    { destruct (drop_while_dropped is_space x) as (u & E & U).
      unfold lstrip in L. rewrite L, app_nil_r in E. now rewrite E. }
    unfold lstrip. rewrite drop_while_all by now rewrite forallb_app, X, V.
    reflexivity.
  - unfold lstrip in *. rewrite drop_while_app by now rewrite L.
    rewrite L. now apply rstrip_app_spaces_any.
Qed.

(** White space after the text does not change what the loop collects. *)
Lemma collect_lines_trailing_spaces (x v : str) :
  forallb is_space v = true ->
  forall acc, collect_lines (split newline (x ++ v)) acc
              = collect_lines (split newline x) acc.
Proof.
  intros V. remember (length x) as n eqn:En. revert x En.
  induction n as [n IH] using lt_wf_ind. intros x En acc.
  destruct (first_line_or_only x) as [N|(l & r & -> & N)].
  - rewrite (split_one_line x N).
    destruct (first_line_or_only v) as [Nv|(l & r & -> & Nv)].
    + rewrite split_one_line
        by (intros I; apply in_app_or in I as [I|I]; auto).
      apply collect_lines_cons; [now apply strip_app_spaces | reflexivity].
    + rewrite forallb_app in V. apply andb_true_iff in V as [Vl Vr].
      cbn [forallb] in Vr. apply andb_true_iff in Vr as [_ Vr].
      rewrite app_assoc, split_line
        by (intros I; apply in_app_or in I as [I|I]; auto).
      apply collect_lines_cons; [now apply strip_app_spaces|].
      intros acc'. now apply collect_lines_spaces.
  - rewrite <- app_assoc. cbn [app]. rewrite !(split_line l _ N).
    apply collect_lines_cons; [reflexivity|].
    intros acc'. apply (IH (length r)); [|reflexivity].
    subst n. rewrite length_app. cbn. lia.
Qed.

Lemma rstrip_app_keep (a y : str) :
  rstrip y <> [] -> rstrip (a ++ y) = a ++ rstrip y.
Proof.
  intros H. unfold rstrip in *. rewrite rev_app_distr.
  rewrite drop_while_app.
  - now rewrite rev_app_distr, rev_involutive.
  - intros E. apply H. now rewrite E.
Qed.

Lemma rstrip_nil_strip (y : str) : rstrip y = [] -> strip y = [].
Proof.
  intros H. destruct (rstrip_split y) as (v & E & V).
  rewrite H in E. cbn in E. subst y. now apply strip_spaces.
Qed.

(** The first line of a right-stripped text, up to white space. *)
Lemma first_line_of_rstrip (a tail : str) :
  ~ In newline a -> strip a <> [] ->
  tail = [] \/ (exists b, tail = newline :: b) ->
  exists l0 ls,
    split newline (rstrip (a ++ tail)) = l0 :: ls /\ strip l0 = strip a.
Proof.
  intros N S T.
  destruct (rstrip_split (a ++ tail)) as (v & E & V).
  set (p := rstrip (a ++ tail)) in *.
  symmetry in E. apply app_eq_app in E as [m [[E1 E2]|[E1 E2]]].
  - destruct m as [|x m].
    + rewrite app_nil_r in E1. exists a, []. split; [|reflexivity].
      rewrite E1. now apply split_one_line.
    + destruct T as [->|[b ->]]; [discriminate E2|].
      cbn [app] in E2. injection E2 as <- E2.
      exists a, (split newline m). split; [|reflexivity].
      rewrite E1. now apply split_line.
  - assert (M : forallb is_space m = true).
    { rewrite E2, forallb_app in V. now apply andb_true_iff in V as [V _]. }
    exists p, []. split.
    + apply split_one_line. intros I. apply N. rewrite E1.
      apply in_or_app. now left.
    + rewrite E1. symmetry. now apply strip_app_spaces.
Qed.

Lemma strip_nonempty_rstrip (y : str) : strip y <> [] -> rstrip y <> [].
Proof. intros H E. apply H. now apply rstrip_nil_strip. Qed.

Lemma strip_first_line_nonempty (a tail : str) :
  strip a <> [] -> strip (a ++ tail) <> [].
Proof.
  intros S E. apply S.
  assert (L : lstrip a <> [])
    by (intros K; apply S; now apply strip_nil_of_lstrip).
  unfold strip in E. unfold lstrip in *.
  rewrite drop_while_app in E by exact L.
  destruct (rstrip_split (drop_while is_space a ++ tail)) as (v & F & V).
  rewrite E in F. cbn in F.
  assert (A : forallb is_space (drop_while is_space a) = true).
  { rewrite <- F, forallb_app in V. now apply andb_true_iff in V as [V _]. }
  pose proof (drop_while_starts_ok a) as K.
  destruct (drop_while is_space a) as [|c d]; [easy|].
  cbn in A, K. apply andb_true_iff in A as [A _]. now rewrite A in K.
Qed.

(** What the loop collects from the text before a marker line. *)
Lemma collect_lines_cut (H line tail : str) :
  ~ In newline line -> has_marker (strip line) = true ->
  tail = [] \/ (exists b, tail = newline :: b) ->
  collect_lines (split newline (strip (H ++ newline :: line ++ tail))) []
  = collect_lines (split newline (strip H)) [].
Proof.
  intros N M T.
  pose proof (has_marker_nonempty _ M) as S.
  destruct (lstrip H) as [|c A] eqn:L.
  - (* nothing but white space before the marker line *)
    assert (SH : strip H = []) by now apply strip_nil_of_lstrip.
    rewrite SH.
    assert (HS : forallb is_space (H ++ [newline]) = true).
    { destruct (drop_while_dropped is_space H) as (u & E & U).
      unfold lstrip in L. rewrite L, app_nil_r in E.
      rewrite forallb_app, E, U. reflexivity. }
    assert (E : strip (H ++ newline :: line ++ tail) = strip (line ++ tail)).
    { unfold strip. f_equal. unfold lstrip.
      change (H ++ newline :: line ++ tail)
        with (H ++ [newline] ++ (line ++ tail)).
      rewrite app_assoc.
      destruct (drop_while_dropped is_space ((H ++ [newline]) ++ line ++ tail))
        as (u & F & U).
      clear F U.
      generalize (line ++ tail) as y. revert HS.
      generalize (H ++ [newline]) as w. intros w.
      induction w as [|x w IH]; intros HS y; [reflexivity|].
      cbn in HS. apply andb_true_iff in HS as [X HS].
      cbn [app drop_while]. rewrite X. now apply IH. }
    rewrite E.
    destruct (first_line_of_strip line tail N S T) as (l0 & ls & -> & E0).
    cbn [collect_lines]. now rewrite E0, M.
  - assert (Y : rstrip (line ++ tail) <> []).
    { apply strip_nonempty_rstrip. now apply strip_first_line_nonempty. }
    assert (E : strip (H ++ newline :: line ++ tail)
                = lstrip H ++ newline :: rstrip (line ++ tail)).
    { unfold strip. unfold lstrip at 1.
      rewrite drop_while_app by (fold (lstrip H); now rewrite L).
      fold (lstrip H).
      change (lstrip H ++ newline :: line ++ tail)
        with (lstrip H ++ [newline] ++ (line ++ tail)).
      rewrite app_assoc, (rstrip_app_keep _ _ Y), <- app_assoc.
      reflexivity. }
    rewrite E, split_app_newline.
    destruct (first_line_of_rstrip line tail N S T) as (l0 & ls & -> & E0).
    rewrite collect_lines_marker by now rewrite E0.
    unfold strip at 1.
    destruct (rstrip_split (lstrip H)) as (v & F & V).
    rewrite F at 1. now apply collect_lines_trailing_spaces.
Qed.

Lemma unfence_app_newline (a b : str) :
  replace fence [] (replace fence_cypher [] (a ++ newline :: b))
  = replace fence [] (replace fence_cypher [] a)
    ++ newline :: replace fence [] (replace fence_cypher [] b).
Proof.
  rewrite (replace_line fence_cypher [] fence_cypher_nonempty
             fence_cypher_one_line).
  now rewrite (replace_line fence [] fence_nonempty fence_one_line).
Qed.

End CutAtMarker.

(** X21. A line with an explanation marker cuts the response: when a line
    of the response holds no code fence and, once stripped, contains one of
    the explanation markers, the sanitizer returns what it returns for the
    text before that line alone. The marker line and everything after it
    are dropped, whether the marker line is the last line or not. *)
Theorem marker_line_cuts_the_response (head line rest : str) :
  ~ In newline line ->
  contains (lit "```") line = false ->
  has_marker (strip line) = true ->
  _clean_cypher_response (head ++ newline :: line)
  = _clean_cypher_response head
  /\ _clean_cypher_response (head ++ newline :: line ++ newline :: rest)
     = _clean_cypher_response head.
Proof.
  intros N F M.
  assert (K : forall tail tail',
             replace fence [] (replace fence_cypher [] (line ++ tail))
             = line ++ tail' ->
             tail' = [] \/ (exists b, tail' = newline :: b) ->
             _clean_cypher_response (head ++ newline :: line ++ tail)
             = _clean_cypher_response head).
  { intros tail tail' U T. rewrite !clean_unfold. f_equal.
    unfold before_fix.
    change (lit "```") with fence. change (lit "```cypher") with fence_cypher.
    rewrite unfence_app_newline, U.
    now rewrite (collect_lines_cut _ line tail' N M T). }
  split.
  - rewrite <- (app_nil_r line) at 1.
    apply (K [] []); [|now left].
    rewrite app_nil_r. now apply unfence_fence_free.
  - eapply K; [now apply unfence_line | right; eauto].
Qed.

Lemma marker_line_cuts_the_response_witness :
  _clean_cypher_response query_then_note
  = lit "MATCH (s:Student) RETURN s.name".
Proof.
  destruct (marker_line_cuts_the_response
              (lit "MATCH (s:Student) RETURN s.name")
              (lit "Note: this lists every student") (lit "LIMIT 5"))
    as [_ E].
  - intros H. vm_compute in H. intuition discriminate.
  - vm_compute. reflexivity.
  - vm_compute. reflexivity.
  - unfold query_then_note. rewrite E. vm_compute. reflexivity.
Defined.
